(** * ddb-explorer: the DynamoDB client wrapper and the result views

    A shallow embedding of [aws/dynamodb.go] (the client wrapper: value
    codec, key-condition building, Query, Scan, ListTables) and of the
    parts of [main.go] that keep state between key presses (the page
    history behind Ctrl+N / Ctrl+B, the preview-column detection, the item
    detail view and the JSON export), followed by the properties of the
    specification that concern them.

    Conventions.
    - Go [string] is a byte string: [string] of [ascii].
    - [int64] is [Z]; where the source can leave the 64-bit range
      ([strconv.ParseInt]) the range test is written out.
    - [float64] is [spec_float] at precision 53 and [emax = 1024].
    - [map[string]T] at the top level of an item is [gmap string T]; the
      maps nested inside an attribute value are association lists in the
      order in which [range] enumerates them (Go leaves that order open).
    - [error] results are a sum [error + A]; a run-time panic is [None]. *)

From Stdlib Require Import ZArith NArith String Ascii List.
From Stdlib Require Import Sorted Permutation.
From Stdlib Require Import Numbers.DecimalString Numbers.DecimalPos.
From Stdlib Require Import Floats.SpecFloat.
From stdpp Require Import base option list gmap strings fin_maps.

Local Open Scope string_scope.
Local Open Scope Z_scope.

(** ** Byte-string helpers shared by the library models *)

(** Decimal rendering of an integer, as [%d] and [strconv.FormatInt(_, 10)]. *)
Definition itoa (z : Z) : string := NilZero.string_of_int (Z.to_int z).

(** [strings.Join]. *)
Definition Join (elems : list string) (sep : string) : string :=
  String.concat sep elems.

Definition byteN (c : ascii) : N := N_of_ascii c.

Definition isDigit (c : ascii) : bool :=
  ((48 <=? byteN c) && (byteN c <=? 57))%N.

Definition digitVal (c : ascii) : Z := Z.of_N (byteN c) - 48.

(** [lower(c)] of package strconv: [c | ('x' - 'X')]. *)
Definition lower (c : ascii) : N := N.lor (byteN c) 32.

Definition isHexLetter (c : ascii) : bool :=
  ((97 <=? lower c) && (lower c <=? 102))%N.

Definition hexLetterVal (c : ascii) : Z := Z.of_N (lower c) - 97 + 10.

(** ** Package strconv (Go standard library), as far as the client uses it *)
Module strconv.

(** The digits of [ParseUint(s, 10, 64)] before its range test: every
    byte must be a decimal digit and there must be at least one. *)
Fixpoint digitsFrom (acc : Z) (s : string) : option Z :=
  match s with
  | EmptyString => Some acc
  | String c rest =>
      if isDigit c then digitsFrom (acc * 10 + digitVal c) rest else None
  end.

Definition ParseUintDigits (s : string) : option Z :=
  match s with
  | EmptyString => None
  | _ => digitsFrom 0 s
  end.

(** [strconv.ParseInt(s, 10, 64)]: [Some n] when [err == nil].  A syntax
    error and a value outside the int64 range both give [None]. *)
Definition ParseInt (s : string) : option Z :=
  match s with
  | EmptyString => None
  | String c rest =>
      let neg := Ascii.eqb c "-" in
      let body := if Ascii.eqb c "+" || neg then rest else s in
      match ParseUintDigits body with
      | None => None
      | Some un =>
          let cutoff := 2 ^ 63 in
          if negb neg && (cutoff <=? un) then None
          else if neg && (cutoff <? un) then None
          else Some (if neg then - un else un)
      end
  end.

(** [strconv.FormatInt(i, 10)]. *)
Definition FormatInt (i : Z) : string := itoa i.

(** *** ParseFloat

    [strconv.ParseFloat(s, 64)], modelled from its documented behaviour
    and the structure of [atof.go]: [special] recognises the infinities
    and NaN, [readFloat] reads a decimal or hexadecimal mantissa and
    exponent, and the value is rounded to the nearest binary64, ties to
    even.  The result is [Some f] when [err == nil]; a syntax error and
    an overflow ([ErrRange]) both give [None]. *)

Definition lowerAZ (c : ascii) : N :=
  if ((65 <=? byteN c) && (byteN c <=? 90))%N then (byteN c + 32)%N
  else byteN c.

Fixpoint commonPrefixLenIgnoreCase (s prefix : string) : nat :=
  match s, prefix with
  | String c s', String p prefix' =>
      if (lowerAZ c =? byteN p)%N
      then S (commonPrefixLenIgnoreCase s' prefix') else O
  | _, _ => O
  end.

Definition specialInf (sign : bool) (nsign : nat) (s : string)
  : option (spec_float * nat) :=
  let n := commonPrefixLenIgnoreCase s "infinity" in
  let n := if (Nat.ltb 3 n && Nat.ltb n 8)%bool then 3%nat else n in
  if (Nat.eqb n 3 || Nat.eqb n 8)%bool
  then Some (S754_infinity sign, (nsign + n)%nat) else None.

Definition special (s : string) : option (spec_float * nat) :=
  match s with
  | EmptyString => None
  | String c rest =>
      if Ascii.eqb c "+" then specialInf false 1 rest
      else if Ascii.eqb c "-" then specialInf true 1 rest
      else if (lowerAZ c =? 105)%N then specialInf false 0 s
      else if (lowerAZ c =? 110)%N then
        if Nat.eqb (commonPrefixLenIgnoreCase s "nan") 3
        then Some (S754_nan, 3%nat) else None
      else None
  end.

(** The mantissa loop of [readFloat].  [mant] is the exact value of the
    significant digits read so far ([nd] of them); Go keeps the first
    19 (or 16) in a [uint64] and re-reads the text when some were
    dropped, so the value it rounds is the exact one. *)
Record mantState := MantState {
  ms_mant : Z; ms_nd : Z; ms_dp : Z;
  ms_sawdot : bool; ms_sawdigits : bool; ms_underscores : bool }.

Fixpoint readMantissa (hex : bool) (st : mantState) (s : string)
  : mantState * string :=
  let '(MantState mant nd dp sawdot sawdigits us) := st in
  match s with
  | EmptyString => (st, s)
  | String c rest =>
      if Ascii.eqb c "_" then
        readMantissa hex (MantState mant nd dp sawdot sawdigits true) rest
      else if Ascii.eqb c "." then
        if sawdot then (st, s)
        else readMantissa hex (MantState mant nd nd true sawdigits us) rest
      else if isDigit c then
        if (Ascii.eqb c "0" && (nd =? 0))%bool then
          readMantissa hex (MantState mant nd (dp - 1) sawdot true us) rest
        else
          readMantissa hex
            (MantState (mant * (if hex then 16 else 10) + digitVal c)
                       (nd + 1) dp sawdot true us) rest
      else if (hex && isHexLetter c)%bool then
        readMantissa hex
          (MantState (mant * 16 + hexLetterVal c) (nd + 1) dp sawdot true us)
          rest
      else (st, s)
  end.

(** The exponent digits: underscores are skipped, and the exponent stops
    growing once it has reached 10000. *)
Fixpoint readExpDigits (e : Z) (us : bool) (s : string) : Z * bool * string :=
  match s with
  | EmptyString => (e, us, s)
  | String c rest =>
      if Ascii.eqb c "_" then readExpDigits e true rest
      else if isDigit c then
        readExpDigits (if e <? 10000 then e * 10 + digitVal c else e) us rest
      else (e, us, s)
  end.

Definition readExponent (us : bool) (s : string) : option (Z * bool * string) :=
  match s with
  | EmptyString => None
  | String c rest =>
      let esign := if Ascii.eqb c "-" then -1 else 1 in
      let body := if (Ascii.eqb c "+" || Ascii.eqb c "-")%bool then rest else s in
      match body with
      | EmptyString => None
      | String d _ =>
          if isDigit d then
            let '(e, us', rest') := readExpDigits 0 us body in
            Some (e * esign, us', rest')
          else None
      end
  end.

Inductive sawKind := SawStart | SawDigit | SawUnderscore | SawOther.

Fixpoint underscoreScan (hex : bool) (saw : sawKind) (s : string) : bool :=
  match s with
  | EmptyString => match saw with SawUnderscore => false | _ => true end
  | String c rest =>
      if (isDigit c || (hex && isHexLetter c))%bool then
        underscoreScan hex SawDigit rest
      else if Ascii.eqb c "_" then
        match saw with
        | SawDigit => underscoreScan hex SawUnderscore rest
        | _ => false
        end
      else
        match saw with
        | SawUnderscore => false
        | _ => underscoreScan hex SawOther rest
        end
  end.

Definition stripSign (s : string) : string :=
  match s with
  | String c rest =>
      if (Ascii.eqb c "-" || Ascii.eqb c "+")%bool then rest else s
  | EmptyString => s
  end.

Definition underscoreOK (s : string) : bool :=
  let s := stripSign s in
  match s with
  | String z (String x rest) =>
      if (Ascii.eqb z "0" &&
          ((lower x =? 98) || (lower x =? 111) || (lower x =? 120))%N)%bool
      then underscoreScan (lower x =? 120)%N SawDigit rest
      else underscoreScan false SawStart s
  | _ => underscoreScan false SawStart s
  end.

Record floatParts := FloatParts {
  fp_neg : bool; fp_hex : bool; fp_mant : Z; fp_exp : Z; fp_rest : string }.

Definition readFloat (s : string) : option floatParts :=
  match s with
  | EmptyString => None
  | String c0 _ =>
      let neg := Ascii.eqb c0 "-" in
      let s1 := stripSign s in
      let '(hex, s2) :=
        match s1 with
        | String z (String x ((String _ _) as digits)) =>
            if (Ascii.eqb z "0" && (lower x =? 120)%N)%bool
            then (true, digits) else (false, s1)
        | _ => (false, s1)
        end in
      let '(MantState mant nd dp sawdot sawdigits us, s3) :=
        readMantissa hex (MantState 0 0 0 false false false) s2 in
      if negb sawdigits then None else
      let dp := if sawdot then dp else nd in
      let dp := if hex then dp * 4 else dp in
      let ndMant := if hex then nd * 4 else nd in
      let expChar := (if hex then 112 else 101)%N in
      let after :=
        match s3 with
        | String c rest =>
            if (lower c =? expChar)%N then
              match readExponent us rest with
              | Some (e, us', rest') => Some (dp + e, us', rest')
              | None => None
              end
            else if hex then None else Some (dp, us, s3)
        | EmptyString => if hex then None else Some (dp, us, s3)
        end in
      match after with
      | None => None
      | Some (dp, us, s4) =>
          let exp := if mant =? 0 then 0 else dp - ndMant in
          let consumed :=
            substring 0 (String.length s - String.length s4) s in
          if (us && negb (underscoreOK consumed))%bool then None
          else Some (FloatParts neg hex mant exp s4)
      end
  end.

(** The binary64 nearest to [± mant * 10 ^ exp], ties to even. *)
Definition roundDecimal (neg : bool) (mant exp : Z) : spec_float :=
  if mant =? 0 then S754_zero neg
  else if 0 <=? exp then
    binary_normalize 53 1024 (cond_Zopp neg (mant * 10 ^ exp)) 0 neg
  else
    let '(q, e, l) := SFdiv_core_binary 53 1024 mant 0 (10 ^ (- exp)) 0 in
    binary_round_aux 53 1024 neg q e l.

(** The binary64 nearest to [± mant * 2 ^ exp] (hexadecimal literals). *)
Definition roundBinary (neg : bool) (mant exp : Z) : spec_float :=
  binary_normalize 53 1024 (cond_Zopp neg mant) exp neg.

Definition ParseFloat (s : string) : option spec_float :=
  match special s with
  | Some (f, n) => if Nat.eqb n (String.length s) then Some f else None
  | None =>
      match readFloat s with
      | None => None
      | Some (FloatParts neg hex mant exp rest) =>
          match rest with
          | EmptyString =>
              match (if hex then roundBinary neg mant exp
                     else roundDecimal neg mant exp) with
              | S754_infinity _ => None
              | f => Some f
              end
          | _ => None
          end
      end
  end.

End strconv.

(** ** The attribute values of the SDK and their Go-native images *)

#[local] Set Warnings "-register-all".

(** [types.AttributeValue]: the union members of the SDK.  Anything the
    SDK does not recognise arrives as [UnknownUnionMember]. *)
Inductive AttributeValue :=
| AttributeValueMemberS (Value : string)
| AttributeValueMemberN (Value : string)
| AttributeValueMemberB (Value : list Byte.byte)
| AttributeValueMemberSS (Value : list string)
| AttributeValueMemberNS (Value : list string)
| AttributeValueMemberBS (Value : list (list Byte.byte))
| AttributeValueMemberL (Value : list AttributeValue)
| AttributeValueMemberM (Value : list (string * AttributeValue))
| AttributeValueMemberNULL (Value : bool)
| AttributeValueMemberBOOL (Value : bool)
| UnknownUnionMember (Tag : string) (Value : list Byte.byte).

(** The dynamic values stored under [interface{}] by the client. *)
Inductive Native :=
| NString (s : string)                 (* string *)
| NInt64 (i : Z)                       (* int64 *)
| NFloat64 (f : spec_float)            (* float64 *)
| NBool (b : bool)                     (* bool *)
| NNil                                 (* nil *)
| NSlice (l : list Native)             (* []interface{} *)
| NMap (m : list (string * Native))   (* map[string]interface{} *)
| NStrings (l : list string).          (* []string *)

(** An item as the SDK returns it, and as the client hands it on. *)
Abbreviation SdkItem := (gmap string AttributeValue).
Abbreviation Item := (gmap string Native).

(** [fmt.Sprintf("<binary: %d bytes>", len(b))]. *)
Definition binaryPlaceholder (b : list Byte.byte) : string :=
  "<binary: " ++ itoa (Z.of_nat (length b)) ++ " bytes>".

(** [fmt.Sprintf("%t", b)]. *)
Definition fmtBool (b : bool) : string := if b then "true" else "false".

(** Map keys in ascending byte order, as both [fmt] and [encoding/json]
    print a map. *)
Fixpoint insertByKey {A} (kv : string * A) (l : list (string * A)) : list (string * A) :=
  match l with
  | [] => [kv]
  | kv' :: rest =>
      if String.leb (fst kv) (fst kv') then kv :: l
      else kv' :: insertByKey kv rest
  end.

Definition sortByKey {A} (l : list (string * A)) : list (string * A) :=
  foldr insertByKey [] l.

(** ** Package fmt: the verb [%v] on the values the views print *)
Module fmt.
Section Sprint.
(** [%v] of a [float64] (the shortest decimal that reads back as the
    same number) is left to the caller. *)
Variable formatFloat : spec_float -> string.

Fixpoint Sprint (v : Native) : string :=
  match v with
  | NString s => s
  | NInt64 i => itoa i
  | NFloat64 f => formatFloat f
  | NBool b => fmtBool b
  | NNil => "<nil>"
  | NSlice l => "[" ++ Join (map Sprint l) " " ++ "]"
  | NMap m =>
      "map[" ++ Join (map (fun kv => fst kv ++ ":" ++ snd kv)
                          (sortByKey (map (fun kv => (fst kv, Sprint (snd kv))) m)))
                     " " ++ "]"
  | NStrings l => "[" ++ Join l " " ++ "]"
  end.

(** [fmt.Sprintf("%v", m[k])]: a missing key reads as [nil]. *)
Definition SprintLookup (m : gmap string Native) (k : string) : string :=
  match m !! k with
  | Some v => Sprint v
  | None => "<nil>"
  end.
End Sprint.
End fmt.

(** ** Package encoding/json: [MarshalIndent(v, "", "    ")] *)
Module json.

Inductive error := UnsupportedValueError (f : spec_float).

Definition dquote : ascii := ascii_of_N 34.

(** [err.Error()] of an [UnsupportedValueError]: the value as
    [strconv.FormatFloat(f, 'g', -1, 64)] prints it. *)
Definition errorText (err : error) : string :=
  match err with
  | UnsupportedValueError f =>
      "json: unsupported value: "
      ++ match f with
         | S754_nan => "NaN"
         | S754_infinity false => "+Inf"
         | S754_infinity true => "-Inf"
         | _ => ""
         end
  end.

Definition hexDigit (n : N) : ascii :=
  ascii_of_N (if (n <? 10)%N then 48 + n else 87 + n)%N.

(** ["\u00XX"] for a byte below 0x80. *)
Definition escapeU00 (b : ascii) : string :=
  "\u00" ++ String (hexDigit (N.shiftr (byteN b) 4))
              (String (hexDigit (N.land (byteN b) 15)) "").

(** One byte below [utf8.RuneSelf], with HTML escaping on. *)
Definition encodeAscii (b : ascii) : string :=
  let n := byteN b in
  if (n =? 92)%N then "\\"
  else if (n =? 34)%N then String "\" (String b "")
  else if (n =? 8)%N then "\b"
  else if (n =? 12)%N then "\f"
  else if (n =? 10)%N then "\n"
  else if (n =? 13)%N then "\r"
  else if (n =? 9)%N then "\t"
  else if ((n <? 32) || (n =? 60) || (n =? 62) || (n =? 38))%N then escapeU00 b
  else String b "".

Definition isCont (lo hi : N) (s : string) (i : nat) : bool :=
  match String.get i s with
  | Some c => ((lo <=? byteN c) && (byteN c <=? hi))%N
  | None => false
  end.

(** The width of the UTF-8 sequence that starts [s] (first byte at least
    0x80), or 0 when it is not a valid encoding: what
    [utf8.DecodeRuneInString] reports as [(RuneError, 1)]. *)
Definition runeWidth (s : string) : nat :=
  match s with
  | EmptyString => 0%nat
  | String b _ =>
      let n := byteN b in
      if ((194 <=? n) && (n <=? 223))%N then
        if isCont 128 191 s 1 then 2%nat else 0%nat
      else if ((224 <=? n) && (n <=? 239))%N then
        let lo := if (n =? 224)%N then 160%N else 128%N in
        let hi := if (n =? 237)%N then 159%N else 191%N in
        if (isCont lo hi s 1 && isCont 128 191 s 2)%bool then 3%nat else 0%nat
      else if ((240 <=? n) && (n <=? 244))%N then
        let lo := if (n =? 240)%N then 144%N else 128%N in
        let hi := if (n =? 244)%N then 143%N else 191%N in
        if (isCont lo hi s 1 && isCont 128 191 s 2 && isCont 128 191 s 3)%bool
        then 4%nat else 0%nat
      else 0%nat
  end.

(** U+2028 and U+2029: E2 80 A8 and E2 80 A9. *)
Definition lineSeparator (s : string) : option string :=
  match s with
  | String a (String b (String c _)) =>
      if ((byteN a =? 226) && (byteN b =? 128))%N then
        if (byteN c =? 168)%N then Some "\u2028"
        else if (byteN c =? 169)%N then Some "\u2029"
        else None
      else None
  | _ => None
  end.

(** The body of [appendString].  [skip] counts the remaining bytes of a
    rune whose first byte has been handled: copied when [copy], dropped
    otherwise. *)
Fixpoint encodeBytes (skip : nat) (copy : bool) (s : string) : string :=
  match s with
  | EmptyString => EmptyString
  | String b rest =>
      match skip with
      | S skip' =>
          if copy then String b (encodeBytes skip' copy rest)
          else encodeBytes skip' copy rest
      | O =>
          if (byteN b <? 128)%N then encodeAscii b ++ encodeBytes 0 true rest
          else
            match runeWidth s with
            | O => "\ufffd" ++ encodeBytes 0 true rest
            | S w =>
                match lineSeparator s with
                | Some esc => esc ++ encodeBytes w false rest
                | None => String b (encodeBytes w true rest)
                end
            end
      end
  end.

Definition quote (s : string) : string :=
  String dquote (encodeBytes 0 true s ++ String dquote "").

Fixpoint indentation (depth : nat) : string :=
  match depth with
  | O => ""
  | S d => "    " ++ indentation d
  end.

Definition newline : string := String (ascii_of_N 10) "".

(** A non-empty array or object: one member per line, one level deeper. *)
Definition block (open close : string) (depth : nat) (members : list string)
  : string :=
  match members with
  | [] => open ++ close
  | _ =>
      open ++ newline ++ indentation (S depth)
      ++ Join members ("," ++ newline ++ indentation (S depth))
      ++ newline ++ indentation depth ++ close
  end.

(** All the results of a list of encodings, or the first error. *)
Fixpoint collect (l : list (error + string)) : error + list string :=
  match l with
  | [] => inr []
  | inl e :: _ => inl e
  | inr x :: rest =>
      match collect rest with
      | inl e => inl e
      | inr xs => inr (x :: xs)
      end
  end.

Section Marshal.
(** The decimal text of a finite [float64] is left to the caller. *)
Variable formatFloat : spec_float -> string.

Definition encodeFloat (f : spec_float) : error + string :=
  match f with
  | S754_nan | S754_infinity _ => inl (UnsupportedValueError f)
  | _ => inr (formatFloat f)
  end.

Fixpoint encode (depth : nat) (v : Native) : error + string :=
  match v with
  | NString s => inr (quote s)
  | NInt64 i => inr (itoa i)
  | NFloat64 f => encodeFloat f
  | NBool b => inr (fmtBool b)
  | NNil => inr "null"
  | NSlice l =>
      match collect (map (encode (S depth)) l) with
      | inl e => inl e
      | inr members => inr (block "[" "]" depth members)
      end
  | NMap m =>
      match collect (map (fun kv =>
                            match snd kv with
                            | inl e => inl e
                            | inr text => inr (quote (fst kv) ++ ": " ++ text)
                            end)
                         (sortByKey (map (fun kv => (fst kv, encode (S depth) (snd kv)))
                                         m))) with
      | inl e => inl e
      | inr members => inr (block "{" "}" depth members)
      end
  | NStrings l => inr (block "[" "]" depth (map quote l))
  end.

(** [json.MarshalIndent(item, "", "    ")] on a [map[string]interface{}]. *)
Definition MarshalIndent (item : gmap string Native) : error + string :=
  encode 0 (NMap (map_to_list item)).
End Marshal.
End json.

(** ** Package aws: the client wrapper of [aws/dynamodb.go] *)
Module aws.

(** [attributeValueToInterface]: DynamoDB attribute value to Go native
    value. *)
(** *** The SDK surface the client talks to *)

(** Go [error] values; the client only ever relays the SDK's. *)
Inductive error := SdkError (msg : string).

Record KeySchemaElement := {
  AttributeName : option string;      (* *string, nil-checked by the client *)
  KeyType : string }.

Record TableDescription := {
  td_KeySchema : list KeySchemaElement;
  td_GlobalSecondaryIndexes : list (list KeySchemaElement);
  td_TableStatus : string;
  td_ItemCount : Z;
  td_TableSizeBytes : Z }.

Record QueryInput := {
  qi_TableName : string;
  qi_Limit : Z;
  qi_KeyConditionExpression : string;
  qi_ExpressionAttributeNames : gmap string string;
  qi_ExpressionAttributeValues : gmap string AttributeValue;
  qi_ExclusiveStartKey : option SdkItem }.

Record ScanInput := {
  si_TableName : string;
  si_Limit : Z;
  si_ExclusiveStartKey : option SdkItem }.

(** [dynamodb.QueryOutput] and [dynamodb.ScanOutput]: the two fields the
    client reads. *)
Record PageOutput := {
  po_Items : list SdkItem;
  po_LastEvaluatedKey : option SdkItem }.

(** The service behind [c.svc]: one answer per request. *)
Record Service := {
  svc_ListTables : error + list string;
  svc_DescribeTable : string -> error + TableDescription;
  svc_Query : QueryInput -> error + PageOutput;
  svc_Scan : ScanInput -> error + PageOutput }.

(** The requests a client operation sends, in order. *)
Inductive Call :=
| CallListTables
| CallDescribeTable (name : string)
| CallQuery (input : QueryInput)
| CallScan (input : ScanInput).

(** A client operation: the requests it sent and what it returned. *)
Definition Net (A : Type) : Type := (list Call * (error + A))%type.

(** *** The client's own types *)

Record TableInfo := {
  Name : string;
  Status : string;
  ItemCount : Z;
  SizeBytes : Z;
  PartitionKey : string;
  SortKey : string;
  SchemaFields : list string }.

Record QueryResult := {
  Items : list Item;
  RawItems : list Item;
  LastEvaluatedKey : option Item }.

(** *** The value codec *)

Fixpoint attributeValueToInterface (v : AttributeValue) : Native :=
  match v with
  | AttributeValueMemberS val => NString val
  | AttributeValueMemberN val =>
      match strconv.ParseInt val with
      | Some i => NInt64 i
      | None =>
          match strconv.ParseFloat val with
          | Some f => NFloat64 f
          | None => NString val
          end
      end
  | AttributeValueMemberBOOL val => NBool val
  | AttributeValueMemberNULL _ => NNil
  | AttributeValueMemberL val => NSlice (map attributeValueToInterface val)
  | AttributeValueMemberM val =>
      NMap (map (fun kv => (fst kv, attributeValueToInterface (snd kv))) val)
  | AttributeValueMemberSS val => NStrings val
  | AttributeValueMemberNS val => NStrings val
  | AttributeValueMemberBS val => NStrings (map binaryPlaceholder val)
  | AttributeValueMemberB val => NString (binaryPlaceholder val)
  | UnknownUnionMember _ _ => NString "unknown"
  end.

(** [formatAttributeValue]: the display string of an attribute value. *)
Fixpoint formatAttributeValue (v : AttributeValue) : string :=
  match v with
  | AttributeValueMemberS val => val
  | AttributeValueMemberN val => val
  | AttributeValueMemberB val => binaryPlaceholder val
  | AttributeValueMemberSS val => "[" ++ Join val ", " ++ "]"
  | AttributeValueMemberNS val => "[" ++ Join val ", " ++ "]"
  | AttributeValueMemberBS val =>
      "[" ++ Join (map binaryPlaceholder val) ", " ++ "]"
  | AttributeValueMemberL val =>
      "[" ++ Join (map formatAttributeValue val) ", " ++ "]"
  | AttributeValueMemberM val =>
      "{" ++ Join (map (fun kv => fst kv ++ ": " ++ formatAttributeValue (snd kv))
                       val) ", " ++ "}"
  | AttributeValueMemberNULL _ => "null"
  | AttributeValueMemberBOOL val => fmtBool val
  | UnknownUnionMember _ _ => "unknown"
  end.

(** *** Query and Scan *)

(** The loop that turns the caller's [exclusiveStartKey] back into
    attribute values: a [string] becomes an S member, an [int64] an N
    member, any other dynamic type is left out. *)
Definition encodeExclusiveStartKey (exclusiveStartKey : gmap string Native)
  : gmap string AttributeValue :=
  omap (fun v =>
          match v with
          | NString val => Some (AttributeValueMemberS val)
          | NInt64 val => Some (AttributeValueMemberN (strconv.FormatInt val))
          | _ => None
          end) exclusiveStartKey.

(** "Convert LastEvaluatedKey": every key attribute is stored as its
    display string. *)
Definition displayItem (item : gmap string AttributeValue) : gmap string Native :=
  (fun v => NString (formatAttributeValue v)) <$> item.

Definition rawItem (item : gmap string AttributeValue) : gmap string Native :=
  attributeValueToInterface <$> item.

Definition convertLastEvaluatedKey (key : option SdkItem) : option Item :=
  match key with
  | Some k => Some (displayItem k)
  | None => None
  end.

(** "Convert items": the display item and the raw item of every record. *)
Definition convertPage (out : PageOutput) : QueryResult :=
  {| Items := map displayItem (po_Items out);
     RawItems := map rawItem (po_Items out);
     LastEvaluatedKey := convertLastEvaluatedKey (po_LastEvaluatedKey out) |}.

(** The key condition for the sort key; an operator outside the seven
    cases leaves the partition-key expression as it is. *)
Definition sortKeyExpression (condition : string) : string :=
  if String.eqb condition "=" then "#pk = :pk AND #sk = :sk"
  else if String.eqb condition "begins_with" then "#pk = :pk AND begins_with(#sk, :sk)"
  else if String.eqb condition "<" then "#pk = :pk AND #sk < :sk"
  else if String.eqb condition "<=" then "#pk = :pk AND #sk <= :sk"
  else if String.eqb condition ">" then "#pk = :pk AND #sk > :sk"
  else if String.eqb condition ">=" then "#pk = :pk AND #sk >= :sk"
  else if String.eqb condition "between" then "#pk = :pk AND #sk BETWEEN :sk AND :sk2"
  else "#pk = :pk".

(** The request [Query] builds before it calls the service. *)
Definition buildQueryInput
    (tableName partitionKey partitionValue sortKey sortValue condition : string)
    (exclusiveStartKey : option Item) : QueryInput :=
  let withSort := negb (String.eqb sortKey "") && negb (String.eqb sortValue "") in
  {| qi_TableName := tableName;
     qi_Limit := 15;
     qi_KeyConditionExpression :=
       if withSort then sortKeyExpression condition else "#pk = :pk";
     qi_ExpressionAttributeNames :=
       if withSort then <["#sk" := sortKey]> {["#pk" := partitionKey]}
       else {["#pk" := partitionKey]};
     qi_ExpressionAttributeValues :=
       if withSort
       then <[":sk" := AttributeValueMemberS sortValue]>
              {[":pk" := AttributeValueMemberS partitionValue]}
       else {[":pk" := AttributeValueMemberS partitionValue]};
     qi_ExclusiveStartKey := option_map encodeExclusiveStartKey exclusiveStartKey |}.

Definition Query (c : Service)
    (tableName partitionKey partitionValue sortKey sortValue condition : string)
    (exclusiveStartKey : option Item) : Net QueryResult :=
  let input := buildQueryInput tableName partitionKey partitionValue
                 sortKey sortValue condition exclusiveStartKey in
  ([CallQuery input],
   match svc_Query c input with
   | inl err => inl err
   | inr result => inr (convertPage result)
   end).

Definition Scan (c : Service) (tableName : string)
    (exclusiveStartKey : option Item) : Net QueryResult :=
  let input := {| si_TableName := tableName;
                  si_Limit := 15;
                  si_ExclusiveStartKey :=
                    option_map encodeExclusiveStartKey exclusiveStartKey |} in
  ([CallScan input],
   match svc_Scan c input with
   | inl err => inl err
   | inr result => inr (convertPage result)
   end).

(** *** Table metadata *)

(** The loop over the main key schema: every named key joins
    [schemaFields]; a HASH key is the partition key, a RANGE key the sort
    key. *)
Definition keySchemaStep (st : gset string * string * string) (ks : KeySchemaElement)
  : gset string * string * string :=
  let '(schemaFields, partitionKey, sortKey) := st in
  match AttributeName ks with
  | None => st
  | Some name =>
      let schemaFields := {[name]} ∪ schemaFields in
      if String.eqb (KeyType ks) "HASH" then (schemaFields, name, sortKey)
      else if String.eqb (KeyType ks) "RANGE" then (schemaFields, partitionKey, name)
      else (schemaFields, partitionKey, sortKey)
  end.

(** The loop over one secondary index. *)
Definition indexKeyStep (schemaFields : gset string) (ks : KeySchemaElement)
  : gset string :=
  match AttributeName ks with
  | None => schemaFields
  | Some name => {[name]} ∪ schemaFields
  end.

(** [getTableInfo].  The field names leave the Go map in the order of its
    iteration, which Go leaves open; here it is the order of [elements]. *)
Definition getTableInfo (c : Service) (name : string) : Net TableInfo :=
  ([CallDescribeTable name],
   match svc_DescribeTable c name with
   | inl err => inl err
   | inr table =>
       let '(schemaFields, partitionKey, sortKey) :=
         fold_left keySchemaStep (td_KeySchema table) (∅, "", "") in
       let schemaFields :=
         fold_left (fun acc gsi => fold_left indexKeyStep gsi acc)
                   (td_GlobalSecondaryIndexes table) schemaFields in
       inr {| Name := name;
              Status := td_TableStatus table;
              ItemCount := td_ItemCount table;
              SizeBytes := td_TableSizeBytes table;
              PartitionKey := partitionKey;
              SortKey := sortKey;
              SchemaFields := elements schemaFields |}
   end).



Section ListTables.
(** [sort.Slice] of the Go library: not stable, so it is taken as given
    and constrained by its contract where a property needs it. *)
Variable sort_Slice : forall A : Type, (A -> A -> bool) -> list A -> list A.

End ListTables.

End aws.

(** ** Package main: the views of [main.go] *)
Module main.
Import aws.

(** [strings.ReplaceAll(s, old, new)] for one-byte [old] and [new]. *)
Fixpoint ReplaceAll (s : string) (old new : ascii) : string :=
  match s with
  | EmptyString => EmptyString
  | String c rest =>
      String (if Ascii.eqb c old then new else c) (ReplaceAll rest old new)
  end.

(** The common field names the results views look for. *)
Definition candidateFields : list string :=
  ["title"; "Title"; "name"; "Name"; "displayName"; "description";
   "Description"; "email"; "Email"].

(** The detection loop: a candidate present in the first item and
    different from both key columns is appended; the loop breaks once two
    fields have been collected. *)
Fixpoint detectLoop (firstItem : gmap string Native) (tableInfo : TableInfo)
    (candidates : list string) (additionalFields : list string) : list string :=
  match candidates with
  | [] => additionalFields
  | field :: rest =>
      match firstItem !! field with
      | Some _ =>
          if negb (String.eqb field (PartitionKey tableInfo))
             && negb (String.eqb field (SortKey tableInfo))
          then
            let additionalFields := (additionalFields ++ [field])%list in
            if (2 <=? length additionalFields)%nat then additionalFields
            else detectLoop firstItem tableInfo rest additionalFields
          else detectLoop firstItem tableInfo rest additionalFields
      | None => detectLoop firstItem tableInfo rest additionalFields
      end
  end.

(** "Detect additional fields to display": only the first item of the
    first page is inspected. *)
Definition detectAdditionalFields (items : list (gmap string Native))
    (tableInfo : TableInfo) : list string :=
  match items with
  | firstItem :: _ => detectLoop firstItem tableInfo candidateFields []
  | [] => []
  end.

(** *** The results view and its page history

    The display items of a page are Go maps: the slices held by [result]
    and by the page history share them, and the item view deletes from
    them.  [heap] holds every item map allocated so far, a reference is
    an index into it. *)

(** [aws.QueryResult] as the view holds it: [Items] are references. *)
Record QueryResultRef := {
  ref_Items : list nat;
  ref_RawItems : list (gmap string Native);
  ref_LastEvaluatedKey : option (gmap string Native) }.

(** [pageState].  The scan view also stores [rawItems]; the query view
    has no such field (see [recordPage] and [restorePage]). *)
Record pageState := {
  items : list nat;
  rawItems : list (gmap string Native);
  lastEvaluatedKey : option (gmap string Native) }.

(** The request behind a results view: the values the closure froze. *)
Inductive Action :=
| QueryAction (pkValue sortKey sortValue cond : string)
| ScanAction.

Record ResultsView := {
  heap : list (gmap string Native);
  sent : list Call;                       (* requests issued so far *)
  result : QueryResultRef;
  currentPage : nat;
  pageHistory : list pageState;
  additionalFields : list string;
  resultsTable : list (list string);      (* header row, then data rows *)
  pageHeader : string }.

(** The item view opened by Enter: its rows and the raw item it exports. *)
Record ItemView := {
  itemTable : list (string * string);
  iv_rawItem : gmap string Native }.

Definition deref (h : list (gmap string Native)) (l : nat) : gmap string Native :=
  default ∅ (h !! l).

(** Fresh maps for the items of a fetched page. *)
Definition allocItems (h : list (gmap string Native)) (its : list (gmap string Native))
  : list (gmap string Native) * list nat :=
  ((h ++ its)%list, seq (length h) (length its)).

(** "Truncate if too long". *)
Definition truncate (value : string) : string :=
  if (50 <? String.length value)%nat then substring 0 47 value ++ "..." else value.

Definition recordPage (action : Action) (r : QueryResultRef) : pageState :=
  {| items := ref_Items r;
     rawItems := match action with
                 | ScanAction => ref_RawItems r
                 | QueryAction _ _ _ _ => []
                 end;
     lastEvaluatedKey := ref_LastEvaluatedKey r |}.

Definition restorePage (prevState : pageState) : QueryResultRef :=
  {| ref_Items := items prevState;
     ref_RawItems := rawItems prevState;
     ref_LastEvaluatedKey := lastEvaluatedKey prevState |}.

Section Views.
Variable formatFloat : spec_float -> string.   (* [%v] of a float64 *)
Variable jsonFloat : spec_float -> string.     (* JSON text of a float64 *)
Variable client : Service.
Variable tableInfo : TableInfo.

(** The form's Query button: the sort key condition is only passed on
    when a sort key value was typed. *)
Definition queryAction (pkValue skValue condition : string) : Action :=
  if negb (String.eqb skValue "")
  then QueryAction pkValue (SortKey tableInfo) skValue condition
  else QueryAction pkValue "" "" "".

Variable action : Action.

Definition fetchPage (exclusiveStartKey : option (gmap string Native))
  : Net QueryResult :=
  match action with
  | QueryAction pkValue sortKey sortValue cond =>
      Query client (Name tableInfo) (PartitionKey tableInfo) pkValue
            sortKey sortValue cond exclusiveStartKey
  | ScanAction => Scan client (Name tableInfo) exclusiveStartKey
  end.

Definition headers (fields : list string) : list string :=
  (PartitionKey tableInfo
     :: (if String.eqb (SortKey tableInfo) "" then [] else [SortKey tableInfo])
     ++ fields)%list.

Definition dataRow (fields : list string) (item : gmap string Native)
  : list string :=
  (fmt.SprintLookup formatFloat item (PartitionKey tableInfo)
     :: (if String.eqb (SortKey tableInfo) "" then []
         else [fmt.SprintLookup formatFloat item (SortKey tableInfo)])
     ++ map (fun field =>
               match item !! field with
               | Some v => truncate (fmt.Sprint formatFloat v)
               | None => ""
               end) fields)%list.

Definition tableCells (h : list (gmap string Native)) (refs : list nat)
    (fields : list string) : list (list string) :=
  headers fields ::
    match refs with
    | [] => [["No items found."]]
    | _ => map (fun l => dataRow fields (deref h l)) refs
    end.

Definition headerText (page : nat) : string :=
  (match action with
   | QueryAction _ _ _ _ => "Query"
   | ScanAction => "Scan"
   end) ++ " Results for " ++ Name tableInfo ++ " - Page "
       ++ itoa (Z.of_nat page).

(** [updateResultsTable]: redraw the table from [newResult], make it
    the current result, update the header. *)
Definition updateResultsTable (v : ResultsView) (newResult : QueryResultRef)
    (page : nat) (fields : list string) : ResultsView :=
  {| heap := heap v;
     sent := sent v;
     result := newResult;
     currentPage := currentPage v;
     pageHistory := pageHistory v;
     additionalFields := additionalFields v;
     resultsTable := tableCells (heap v) (ref_Items newResult) fields;
     pageHeader := headerText page |}.

(** Submitting the form: the first fetch and the view built from it. *)
Definition submit : list Call * (error + ResultsView) :=
  let '(calls, r) := fetchPage None in
  (calls,
   match r with
   | inl err => inl err
   | inr first =>
       let fields := detectAdditionalFields (Items first) tableInfo in
       let '(h, refs) := allocItems [] (Items first) in
       let res := {| ref_Items := refs;
                     ref_RawItems := RawItems first;
                     ref_LastEvaluatedKey := LastEvaluatedKey first |} in
       inr {| heap := h;
              sent := calls;
              result := res;
              currentPage := 1;
              pageHistory := [recordPage action res];
              additionalFields := fields;
              resultsTable := tableCells h refs fields;
              pageHeader := headerText 1 |}
   end).

(** Ctrl+B.  [None] is the index panic of [pageHistory[currentPage-1]]. *)
Definition previous (v : ResultsView) : option ResultsView :=
  if (1 <? currentPage v)%nat then
    let page := (currentPage v - 1)%nat in
    match pageHistory v !! (page - 1)%nat with
    | Some prevState =>
        Some (updateResultsTable
                {| heap := heap v; sent := sent v; result := result v;
                   currentPage := page; pageHistory := pageHistory v;
                   additionalFields := additionalFields v;
                   resultsTable := resultsTable v;
                   pageHeader := pageHeader v |}
                (restorePage prevState) page (additionalFields v))
    | None => None
    end
  else Some v.

(** Ctrl+N, guarded by [result.LastEvaluatedKey != nil].  (The "Next"
    button runs the same statements; it only exists while no fetched page
    has come without a token, and it never has the focus.) *)
Definition next (v : ResultsView) : ResultsView :=
  match ref_LastEvaluatedKey (result v) with
  | None => v
  | Some key =>
      let '(calls, r) := fetchPage (Some key) in
      match r with
      | inl _ =>
          {| heap := heap v; sent := (sent v ++ calls)%list; result := result v;
             currentPage := currentPage v; pageHistory := pageHistory v;
             additionalFields := additionalFields v;
             resultsTable := resultsTable v; pageHeader := pageHeader v |}
      | inr nextResult =>
          let '(h, refs) := allocItems (heap v) (Items nextResult) in
          let res := {| ref_Items := refs;
                        ref_RawItems := RawItems nextResult;
                        ref_LastEvaluatedKey := LastEvaluatedKey nextResult |} in
          let page := S (currentPage v) in
          let history :=
            if (length (pageHistory v) <? page)%nat
            then (pageHistory v ++ [recordPage action res])%list
            else pageHistory v in
          updateResultsTable
            {| heap := h; sent := (sent v ++ calls)%list; result := result v;
               currentPage := page; pageHistory := history;
               additionalFields := additionalFields v;
               resultsTable := resultsTable v; pageHeader := pageHeader v |}
            res page (additionalFields v)
      end
  end.

(** The page [next] hands to the table, if any. *)
Definition nextShown (v : ResultsView) : option QueryResultRef :=
  match ref_LastEvaluatedKey (result v) with
  | None => None
  | Some key =>
      match snd (fetchPage (Some key)) with
      | inl _ => None
      | inr _ => Some (result (next v))
      end
  end.

(** "Schema fields" loop of the item view: a schema field present in the
    item gets a row and is deleted from the item. *)
Definition schemaStep (st : gmap string Native * list (string * string))
    (sf : string) : gmap string Native * list (string * string) :=
  let '(item, rows) := st in
  match item !! sf with
  | Some v => (delete sf item, (rows ++ [(sf, fmt.Sprint formatFloat v)])%list)
  | None => (item, rows)
  end.

(** "Other fields" loop: whatever is left in the item. *)
Definition otherRows (item : gmap string Native) : list (string * string) :=
  map (fun kv => (fst kv, fmt.Sprint formatFloat (snd kv))) (map_to_list item).

(** Enter on row [row] of the results table ([row = 0] is the header).
    The outer [None] is the index panic of [result.RawItems[row-1]];
    the inner one means that no item view was opened. *)
Definition openItem (v : ResultsView) (row : nat)
  : option (ResultsView * option ItemView) :=
  if ((0 <? row) && (row <=? length (ref_Items (result v))))%nat then
    match ref_Items (result v) !! (row - 1)%nat,
          ref_RawItems (result v) !! (row - 1)%nat with
    | Some l, Some raw =>
        let '(item, rows) :=
          fold_left schemaStep (SchemaFields tableInfo) (deref (heap v) l, []) in
        Some ({| heap := <[l := item]> (heap v); sent := sent v;
                 result := result v; currentPage := currentPage v;
                 pageHistory := pageHistory v;
                 additionalFields := additionalFields v;
                 resultsTable := resultsTable v;
                 pageHeader := pageHeader v |},
              Some {| itemTable := (rows ++ otherRows item)%list;
                      iv_rawItem := raw |})
    | _, _ => None
    end
  else Some (v, None).

(** "Generate filename from keys". *)
Definition exportFilename (rawItem : gmap string Native) : string :=
  let pkValue := fmt.SprintLookup formatFloat rawItem (PartitionKey tableInfo) in
  let filename :=
    if String.eqb (SortKey tableInfo) "" then pkValue
    else pkValue ++ "_" ++ fmt.SprintLookup formatFloat rawItem (SortKey tableInfo) in
  let filename := ReplaceAll filename "/" "_" in
  let filename := ReplaceAll filename " " "_" in
  let filename := ReplaceAll filename ":" "_" in
  filename ++ ".json".

(** [saveItemAsJSON] up to the call of [os.WriteFile]: the file name
    and the bytes handed to it, or the marshalling error shown in the
    modal. *)
Definition saveItemAsJSON (rawItem : gmap string Native)
  : json.error + (string * string) :=
  let filename := exportFilename rawItem in
  match json.MarshalIndent jsonFloat rawItem with
  | inl err => inl err
  | inr jsonBytes => inr (filename, jsonBytes)
  end.

End Views.

(** *** The table list *)

(** The loop of [formatWithCommas]: while more than three bytes are left,
    the last three become a part.  [fuel] bounds the number of rounds; the
    length of [s] is always enough. *)
Fixpoint commaLoop (fuel : nat) (s : string) (parts : list string)
  : string * list string :=
  match fuel with
  | O => (s, parts)
  | S fuel' =>
      if (3 <? String.length s)%nat then
        commaLoop fuel'
          (substring 0 (String.length s - 3) s)
          (substring (String.length s - 3) 3 s :: parts)
      else (s, parts)
  end.

(** [formatWithCommas]: the parts of the decimal text, joined by commas. *)
Definition commaParts (text : string) : list string :=
  let '(s, parts) := commaLoop (String.length text) text [] in
  if (0 <? String.length s)%nat then s :: parts else parts.

Definition formatWithCommas (n : Z) : string :=
  Join (commaParts (strconv.FormatInt n)) ",".

(** Enter on row [row] of the table list ([row = 0] is the header): the
    table whose action page is opened, if any. *)
Definition selectTable (tables : list TableInfo) (row : nat) : option TableInfo :=
  if ((0 <? row) && (row <=? length tables))%nat then tables !! (row - 1)%nat
  else None.

(** *** The action page: its form and its two tabs *)

(** The items of a [tview.Form] ([GetFormItem] counts these, not the
    buttons). *)
Inductive FormItem :=
| InputField (label text : string)
| DropDown (label : string) (options : list string) (currentOption : Z).

Record Form := {
  formItems : list FormItem;
  formButtons : list string }.

Record ActionPage := {
  currentTab : Z;          (* 0: Query, 1: Scan *)
  form : Form }.

Inductive Key := KeyESC | KeyCtrlQ | KeyCtrlS | KeyRight | KeyLeft | KeyOther.

Definition conditions : list string :=
  ["="; "begins_with"; "<"; "<="; ">"; ">="; "between"].

(** [updateForm]: the form is cleared and built anew for the tab. *)
Definition updateForm (tableInfo : TableInfo) (tab : Z) : Form :=
  if tab =? 0 then
    {| formItems :=
         ((if String.eqb (PartitionKey tableInfo) "" then []
           else [InputField ("Partition Key (" ++ PartitionKey tableInfo ++ ")") ""])
          ++ (if String.eqb (SortKey tableInfo) "" then []
              else [InputField ("Sort Key (" ++ SortKey tableInfo ++ ")") "";
                    DropDown "Condition" conditions 0]))%list;
       formButtons := ["Query"] |}
  else
    {| formItems := []; formButtons := ["Scan " ++ Name tableInfo] |}.


(** The input capture of the action page, as far as the tabs go. *)
Definition tabKey (tableInfo : TableInfo) (key : Key) (page : ActionPage) : ActionPage :=
  match key with
  | KeyCtrlQ =>
      if currentTab page =? 0 then page
      else {| currentTab := 0; form := updateForm tableInfo 0 |}
  | KeyCtrlS =>
      if currentTab page =? 1 then page
      else {| currentTab := 1; form := updateForm tableInfo 1 |}
  | KeyRight | KeyLeft =>
      {| currentTab := 1 - currentTab page;
         form := updateForm tableInfo (1 - currentTab page) |}
  | KeyESC | KeyOther => page
  end.

(** [DropDown.GetCurrentOption]: the text of the current option, empty
    when the index is out of range. *)
Definition currentOptionText (options : list string) (currentOption : Z) : string :=
  if (0 <=? currentOption) && (currentOption <? Z.of_nat (length options))
  then default "" (options !! Z.to_nat currentOption)
  else "".

(** The Query button reads the form: [pkValue], [skValue], [condition].
    [None] is a panic: an item index out of range or a failed type
    assertion. *)
Definition readForm (tableInfo : TableInfo) (f : Form)
  : option (string * string * string) :=
  let pk :=
    if String.eqb (PartitionKey tableInfo) "" then Some ""
    else match formItems f !! 0%nat with
         | Some (InputField _ text) => Some text
         | _ => None
         end in
  match pk with
  | None => None
  | Some pkValue =>
      if String.eqb (SortKey tableInfo) "" then Some (pkValue, "", "")
      else
        match formItems f !! 1%nat with
        | Some (InputField _ skValue) =>
            match formItems f !! 2%nat with
            | Some (DropDown _ options currentOption) =>
                Some (pkValue, skValue, currentOptionText options currentOption)
            | _ => None
            end
        | _ => None
        end
  end.

(** What the user does to a form item: type a text, pick an option. *)
Definition setText (text : string) (item : FormItem) : FormItem :=
  match item with
  | InputField label _ => InputField label text
  | DropDown _ _ _ => item
  end.

Definition setCurrentOption (index : Z) (item : FormItem) : FormItem :=
  match item with
  | DropDown label options _ => DropDown label options index
  | InputField _ _ => item
  end.

(** *** The JSON view of one field *)

Section JsonView.
Variable jsonFloat : spec_float -> string.

(** Enter on row [row] of the item view ([row = 0] is the header): the
    title and the text of the JSON view, or [None] when none is opened.
    Only a [map[string]interface{}] or a [[]interface{}] opens one. *)
Definition openJsonView (view : ItemView) (row : nat) : option (string * string) :=
  if (0 <? row)%nat then
    let fieldName :=
      match itemTable view !! (row - 1)%nat with
      | Some cell => fst cell
      | None => ""
      end in
    match iv_rawItem view !! fieldName with
    | Some v =>
        match v with
        | NMap _ | NSlice _ =>
            Some ("JSON View - " ++ fieldName ++ " (Space: page down, ESC: close)",
                  match json.encode jsonFloat 0 v with
                  | inr jsonBytes => jsonBytes
                  | inl err => "Error formatting JSON: " ++ json.errorText err
                  end)
        | _ => None
        end
    | None => None
    end
  else None.
End JsonView.

End main.

(** ** Vocabulary of the properties, and sample data *)

(** The number that a string of decimal digits denotes, read from the
    left with [acc] for the digits already read. *)
Fixpoint uintVal (acc : Z) (d : Decimal.uint) : Z :=
  match d with
  | Decimal.Nil => acc
  | Decimal.D0 d => uintVal (acc * 10) d
  | Decimal.D1 d => uintVal (acc * 10 + 1) d
  | Decimal.D2 d => uintVal (acc * 10 + 2) d
  | Decimal.D3 d => uintVal (acc * 10 + 3) d
  | Decimal.D4 d => uintVal (acc * 10 + 4) d
  | Decimal.D5 d => uintVal (acc * 10 + 5) d
  | Decimal.D6 d => uintVal (acc * 10 + 6) d
  | Decimal.D7 d => uintVal (acc * 10 + 7) d
  | Decimal.D8 d => uintVal (acc * 10 + 8) d
  | Decimal.D9 d => uintVal (acc * 10 + 9) d
  end.

(** A candidate field counts as a hit for the preview columns when the
    first item has it and it is neither key column. *)
Definition isHit (firstItem : gmap string Native) (tableInfo : aws.TableInfo)
    (field : string) : bool :=
  bool_decide (is_Some (firstItem !! field))
  && negb (String.eqb field (aws.PartitionKey tableInfo))
  && negb (String.eqb field (aws.SortKey tableInfo)).

(** The preference list as the specification words it. *)
Definition specPreferenceList : list string :=
  ["title"; "name"; "displayName"; "description"; "email"].

(** The bytes that the export replaces by an underscore. *)
Definition sanitize (c : ascii) : ascii :=
  if (Ascii.eqb c "/" || Ascii.eqb c " " || Ascii.eqb c ":")%bool then "_"%char else c.

Fixpoint mapBytes (f : ascii -> ascii) (s : string) : string :=
  match s with
  | EmptyString => EmptyString
  | String c rest => String (f c) (mapBytes f rest)
  end.

(** A text between double quotes. *)
Definition quoted (s : string) : string :=
  String json.dquote (s ++ String json.dquote "").






(** *** Paging *)

(** The items of the page on display, read through the references. *)
Definition shownItems (v : main.ResultsView) : list (gmap string Native) :=
  map (main.deref (main.heap v)) (main.ref_Items (main.result v)).



(** The page on display is the very page the history holds at the current
    index: same references, hence the same item maps. *)
Definition SharesHistory (v : main.ResultsView) : Prop :=
  exists p, main.pageHistory v !! (main.currentPage v - 1)%nat = Some p
            /\ main.items p = main.ref_Items (main.result v).

Section PagingVocabulary.
Import aws main.
Variable formatFloat : spec_float -> string.
Variable client : Service.
Variable tableInfo : TableInfo.
Variable action : Action.


(** The views reached from a submitted form by Ctrl+N and Ctrl+B alone. *)
Inductive Paged : ResultsView -> Prop :=
| Paged_submit v :
    snd (submit formatFloat client tableInfo action) = inr v -> Paged v
| Paged_next v :
    Paged v -> Paged (next formatFloat client tableInfo action v)
| Paged_previous v v' :
    Paged v -> previous formatFloat tableInfo action v = Some v' -> Paged v'.

(** The invariant of paging: the index points into the history, the
    page on display has the items and the token of the history page at
    the index, every history page was fetched with the token of the page
    before it, all references are allocated, and the table shows the
    items on display. *)
Record PagingInv (v : ResultsView) : Prop := {
  inv_page : (1 <= currentPage v <= length (pageHistory v))%nat;
  inv_refs :
    Forall (fun p => Forall (fun l => (l < length (heap v))%nat) (items p))
           (pageHistory v);
  inv_result_refs :
    Forall (fun l => (l < length (heap v))%nat) (ref_Items (result v));
  inv_current :
    exists p, pageHistory v !! (currentPage v - 1)%nat = Some p
              /\ shownItems v = map (deref (heap v)) (items p)
              /\ ref_LastEvaluatedKey (result v) = lastEvaluatedKey p;
  inv_chain :
    forall i p q,
      pageHistory v !! i = Some p -> pageHistory v !! S i = Some q ->
      exists key r,
        lastEvaluatedKey p = Some key
        /\ snd (fetchPage client tableInfo action (Some key)) = inr r
        /\ map (deref (heap v)) (items q) = Items r
        /\ lastEvaluatedKey q = LastEvaluatedKey r;
  inv_table :
    resultsTable v
    = tableCells formatFloat tableInfo (heap v) (ref_Items (result v))
                 (additionalFields v) }.
End PagingVocabulary.

Module Example.
Import aws main.

(** A table with partition key [id] and sort key [ts]. *)
Definition events : TableInfo :=
  {| Name := "events"; Status := "ACTIVE"; ItemCount := 3; SizeBytes := 512;
     PartitionKey := "id"; SortKey := "ts"; SchemaFields := ["id"; "ts"] |}.

Definition titled : gmap string Native :=
  {["id" := NString "u1"; "Title" := NString "Hello"]}.

Definition contact : gmap string Native :=
  {["id" := NString "u1"; "ts" := NString "2024-01-01";
    "name" := NString "Ann"; "email" := NString "ann@example.org"]}.
(** The record of the export scenario, as the SDK returns it. *)
Definition hello : gmap string AttributeValue :=
  {["id" := AttributeValueMemberS "u1";
    "ts" := AttributeValueMemberS "2024-01-01";
    "title" := AttributeValueMemberS "Hello";
    "tags" := AttributeValueMemberL [AttributeValueMemberS "a";
                                     AttributeValueMemberS "b"]]}.

Definition helloJson : string :=
  Join ["{";
        "    " ++ quoted "id" ++ ": " ++ quoted "u1" ++ ",";
        "    " ++ quoted "tags" ++ ": [";
        "        " ++ quoted "a" ++ ",";
        "        " ++ quoted "b";
        "    ],";
        "    " ++ quoted "title" ++ ": " ++ quoted "Hello" ++ ",";
        "    " ++ quoted "ts" ++ ": " ++ quoted "2024-01-01";
        "}"] json.newline.
Definition description (count : Z) : TableDescription :=
  {| td_KeySchema := [{| AttributeName := Some "id"; KeyType := "HASH" |};
                      {| AttributeName := Some "ts"; KeyType := "RANGE" |}];
     td_GlobalSecondaryIndexes := [];
     td_TableStatus := "ACTIVE";
     td_ItemCount := count;
     td_TableSizeBytes := 512 |}.

(** Three tables, one of which cannot be described; no data. *)
Definition catalogue : Service :=
  {| svc_ListTables := inr ["small"; "broken"; "large"];
     svc_DescribeTable := fun name =>
       if String.eqb name "small" then inr (description 3)
       else if String.eqb name "large" then inr (description 70)
       else inl (SdkError "AccessDeniedException");
     svc_Query := fun _ => inl (SdkError "no data");
     svc_Scan := fun _ => inl (SdkError "no data") |}.
(** A feed of three pages of one record each; the continuation token of
    a page is the key of its record. *)
Definition record (ts : string) : gmap string AttributeValue :=
  {["id" := AttributeValueMemberS "u1";
    "ts" := AttributeValueMemberS ts;
    "name" := AttributeValueMemberS ("entry " ++ ts)]}.

Definition token (ts : string) : gmap string AttributeValue :=
  {["id" := AttributeValueMemberS "u1"; "ts" := AttributeValueMemberS ts]}.

Definition pageAfter (start : option (gmap string AttributeValue))
  : error + PageOutput :=
  match start with
  | None => inr {| po_Items := [record "1"]; po_LastEvaluatedKey := Some (token "1") |}
  | Some key =>
      match key !! "ts" with
      | Some (AttributeValueMemberS ts) =>
          if String.eqb ts "1"
          then inr {| po_Items := [record "2"]; po_LastEvaluatedKey := Some (token "2") |}
          else if String.eqb ts "2"
          then inr {| po_Items := [record "3"]; po_LastEvaluatedKey := None |}
          else inl (SdkError "ValidationException")
      | _ => inl (SdkError "ValidationException")
      end
  end.

Definition feed : Service :=
  {| svc_ListTables := inr ["events"];
     svc_DescribeTable := fun _ => inr (description 3);
     svc_Query := fun input => pageAfter (qi_ExclusiveStartKey input);
     svc_Scan := fun input => pageAfter (si_ExclusiveStartKey input) |}.

Definition noFloat (f : spec_float) : string := "".

Definition blank : ResultsView :=
  {| heap := []; sent := [];
     result := {| ref_Items := []; ref_RawItems := []; ref_LastEvaluatedKey := None |};
     currentPage := 0; pageHistory := []; additionalFields := [];
     resultsTable := []; pageHeader := "" |}.

(** The scan view of [events] after the form was submitted, and the two
    keys. *)
Definition page1 : ResultsView :=
  match snd (submit noFloat feed events ScanAction) with
  | inr v => v
  | inl _ => blank
  end.

Definition ctrlN : ResultsView -> ResultsView := next noFloat feed events ScanAction.

Definition ctrlB (v : ResultsView) : ResultsView :=
  default blank (previous noFloat events ScanAction v).

Definition page2 : ResultsView := ctrlN page1.
Definition page3 : ResultsView := ctrlN page2.

End Example.

(** *** Vocabulary of the further properties *)

(** A text without its commas. *)
Fixpoint stripCommas (s : string) : string :=
  match s with
  | EmptyString => EmptyString
  | String c rest =>
      if Ascii.eqb c "," then stripCommas rest else String c (stripCommas rest)
  end.

(** The dynamic types that the start-key loop of [Query] and [Scan] can
    put back into an attribute value: a string, or an int64. *)
Definition restorable (v : Native) : Prop :=
  match v with
  | NString _ => True
  | NInt64 i => - 2 ^ 63 <= i < 2 ^ 63
  | _ => False
  end.

Definition stringOrInt (v : Native) : bool :=
  match v with
  | NString _ | NInt64 _ => true
  | _ => false
  end.

(** The names of the key-schema elements of one key type, in order. *)
Definition namesOfType (keyType : string) (schema : list aws.KeySchemaElement)
  : list string :=
  omap (fun ks => if String.eqb (aws.KeyType ks) keyType
                  then aws.AttributeName ks else None) schema.

(** The key-schema elements of a table and of its secondary indexes. *)
Definition allKeyElements (table : aws.TableDescription) : list aws.KeySchemaElement :=
  (aws.td_KeySchema table ++ concat (aws.td_GlobalSecondaryIndexes table))%list.

(** The placeholders of an expression: each [#] or [:] with the letters
    and digits that follow it. *)
Definition isNameByte (c : ascii) : bool :=
  isDigit c || ((97 <=? lower c) && (lower c <=? 122))%N.

Fixpoint placeholdersFrom (current : option string) (s : string) : list string :=
  match s with
  | EmptyString => match current with Some t => [t] | None => [] end
  | String c rest =>
      if isNameByte c then
        match current with
        | Some t => placeholdersFrom (Some (t ++ String c "")) rest
        | None => placeholdersFrom None rest
        end
      else
        ((match current with Some t => [t] | None => [] end)
         ++ (if (Ascii.eqb c "#" || Ascii.eqb c ":")%bool
             then placeholdersFrom (Some (String c "")) rest
             else placeholdersFrom None rest))%list
  end.

Definition placeholders (expression : string) : list string :=
  placeholdersFrom None expression.

(** *** What a results view keeps while paging *)
Section ViewVocabulary.
Import aws main.
Variable client : Service.
Variable tableInfo : TableInfo.
Variable action : Action.

(** A page request of the view: a Scan of its table, or a Query of its
    table for its partition-key value, for at most 15 items. *)
Definition pageRequest (c : Call) : Prop :=
  match action, c with
  | ScanAction, CallScan input =>
      si_TableName input = Name tableInfo /\ si_Limit input = 15
  | QueryAction pkValue _ _ _, CallQuery input =>
      qi_TableName input = Name tableInfo /\ qi_Limit input = 15
      /\ qi_ExpressionAttributeNames input !! "#pk" = Some (PartitionKey tableInfo)
      /\ qi_ExpressionAttributeValues input !! ":pk"
         = Some (AttributeValueMemberS pkValue)
  | _, _ => False
  end.

(** The raw items a history page holds: one per item in the scan view,
    none in the query view. *)
Definition rawItemsKept (p : pageState) : Prop :=
  match action with
  | ScanAction => length (rawItems p) = length (items p)
  | QueryAction _ _ _ _ => rawItems p = []
  end.

Record ViewInv (v : ResultsView) : Prop := {
  view_header : pageHeader v = headerText tableInfo action (currentPage v);
  view_fields :
    exists first,
      snd (fetchPage client tableInfo action None) = inr first
      /\ additionalFields v = detectAdditionalFields (Items first) tableInfo;
  view_history_raw : Forall rawItemsKept (pageHistory v);
  view_result_raw :
    action = ScanAction ->
    length (ref_RawItems (result v)) = length (ref_Items (result v));
  view_sent : Forall pageRequest (sent v);
  view_sent_count : (currentPage v <= length (sent v))%nat }.
End ViewVocabulary.

(** *** More sample data *)
Module Sample.
Import aws main.

(** The query view of [events] for the partition-key value [u1], and its
    second page. *)
Definition byUser : Action := QueryAction "u1" "" "" "".

Definition queried1 : ResultsView :=
  match snd (submit Example.noFloat Example.feed Example.events byUser) with
  | inr v => v
  | inl _ => Example.blank
  end.

Definition queried2 : ResultsView :=
  next Example.noFloat Example.feed Example.events byUser queried1.
End Sample.

(** *** Values that JSON can carry *)

(** No NaN and no infinity among the numbers of a value. *)
Fixpoint finiteNumbers (v : Native) : bool :=
  match v with
  | NFloat64 S754_nan | NFloat64 (S754_infinity _) => false
  | NSlice l => forallb finiteNumbers l
  | NMap m => forallb (fun kv => finiteNumbers (snd kv)) m
  | _ => true
  end.

(** A record with a number attribute whose text is [NaN]. *)
Definition notANumber : gmap string AttributeValue :=
  {["id" := AttributeValueMemberS "u1"; "ratio" := AttributeValueMemberN "NaN"]}.

(** *** The query form in use *)

(** The query form of a table after the user typed [pk] into its first
    field and [sk] into its second, and picked option [choice] of the
    drop-down. *)
Definition filledForm (tableInfo : aws.TableInfo) (pk sk : string) (choice : Z)
  : main.Form :=
  let f := main.updateForm tableInfo 0 in
  {| main.formItems :=
       alter (main.setText pk) 0%nat
         (alter (main.setText sk) 1%nat
            (alter (main.setCurrentOption choice) 2%nat (main.formItems f)));
     main.formButtons := main.formButtons f |}.


(** *** The records behind a page *)



(** * Properties *)

(** ** The value codec *)
Section Codec.
Import aws.

Lemma Join_three (a b c sep : string) :
  Join [a; b; c] sep = a ++ sep ++ b ++ sep ++ c.
Proof. reflexivity. Qed.

(** C6.  [formatAttributeValue] is a total function with one defined
    result per union member: S and N render as their text, BOOL as
    true/false, B as the placeholder with the byte length, NULL as the
    token null, L and M recursively between brackets and braces with
    members separated by a comma and a space, the three set members as
    bracketed comma-joined lists, and a member the SDK does not know as
    the text unknown. *)
Theorem formatAttributeValue_total :
  (forall s, formatAttributeValue (AttributeValueMemberS s) = s)
  /\ (forall s, formatAttributeValue (AttributeValueMemberN s) = s)
  /\ (formatAttributeValue (AttributeValueMemberBOOL true) = "true"
      /\ formatAttributeValue (AttributeValueMemberBOOL false) = "false")
  /\ (forall b, formatAttributeValue (AttributeValueMemberB b)
                = "<binary: " ++ itoa (Z.of_nat (length b)) ++ " bytes>")
  /\ (forall b, formatAttributeValue (AttributeValueMemberNULL b) = "null")
  /\ (forall l, formatAttributeValue (AttributeValueMemberL l)
                = "[" ++ Join (map formatAttributeValue l) ", " ++ "]")
  /\ (forall m, formatAttributeValue (AttributeValueMemberM m)
                = "{" ++ Join (map (fun kv => fst kv ++ ": "
                                                ++ formatAttributeValue (snd kv)) m)
                              ", " ++ "}")
  /\ (forall l, formatAttributeValue (AttributeValueMemberSS l)
                = "[" ++ Join l ", " ++ "]")
  /\ (forall l, formatAttributeValue (AttributeValueMemberNS l)
                = "[" ++ Join l ", " ++ "]")
  /\ (forall l, formatAttributeValue (AttributeValueMemberBS l)
                = "[" ++ Join (map binaryPlaceholder l) ", " ++ "]")
  /\ (forall tag raw, formatAttributeValue (UnknownUnionMember tag raw) = "unknown")
  /\ formatAttributeValue
       (AttributeValueMemberM
          [("tags", AttributeValueMemberL [AttributeValueMemberS "a";
                                           AttributeValueMemberN "3";
                                           AttributeValueMemberNULL true]);
           ("blob", AttributeValueMemberB [Byte.x00; Byte.x01; Byte.x02]);
           ("ids", AttributeValueMemberNS ["1"; "2"])])
     = "{tags: [a, 3, null], blob: <binary: 3 bytes>, ids: [1, 2]}".
Proof. repeat split; reflexivity. Qed.

Lemma digitsFrom_uint (d : Decimal.uint) (acc : Z) :
  strconv.digitsFrom acc (NilEmpty.string_of_uint d) = Some (uintVal acc d).
Proof.
  revert acc. induction d; intros acc; cbn [NilEmpty.string_of_uint uintVal];
    [reflexivity|..];
    cbn [strconv.digitsFrom];
    match goal with
    | |- (if isDigit ?c then _ else _) = _ =>
        change (isDigit c) with true; cbv iota
    end;
    rewrite IHd; f_equal; f_equal; unfold digitVal; vm_compute (byteN _); lia.
Qed.

Lemma uintVal_of_uint_acc (d : Decimal.uint) (acc : positive) :
  uintVal (Zpos acc) d = Zpos (Pos.of_uint_acc d acc).
Proof.
  revert acc. induction d; intros acc; cbn [uintVal Pos.of_uint_acc];
    [reflexivity|..];
    rewrite <- IHd; f_equal; lia.
Qed.

Lemma uintVal_of_uint (d : Decimal.uint) :
  uintVal 0 d = Z.of_N (Pos.of_uint d).
Proof.
  induction d; cbn [uintVal Pos.of_uint Z.of_N]; try reflexivity; try exact IHd;
    rewrite <- uintVal_of_uint_acc; reflexivity.
Qed.

Lemma isDigit_not_sign (c : ascii) :
  isDigit c = true -> Ascii.eqb c "+" = false /\ Ascii.eqb c "-" = false.
Proof.
  intros H. split.
  - destruct (Ascii.eqb_spec c "+") as [->|]; [discriminate H | reflexivity].
  - destruct (Ascii.eqb_spec c "-") as [->|]; [discriminate H | reflexivity].
Qed.

Lemma digits_of_positive (p : positive) :
  exists c rest,
    NilZero.string_of_uint (Pos.to_uint p) = String c rest
    /\ isDigit c = true
    /\ strconv.digitsFrom 0 (String c rest) = Some (Zpos p).
Proof.
  pose proof (digitsFrom_uint (Pos.to_uint p) 0) as H.
  rewrite uintVal_of_uint, DecimalPos.Unsigned.of_to in H. simpl Z.of_N in H.
  destruct (Pos.to_uint p) eqn:E; [discriminate H|..];
    (eexists _, _; split; [reflexivity|]; split; [reflexivity | exact H]).
Qed.

(** [strconv.ParseInt] reads back what [strconv.FormatInt] writes, for
    every int64. *)
Lemma ParseInt_FormatInt (z : Z) :
  - 2 ^ 63 <= z < 2 ^ 63 -> strconv.ParseInt (strconv.FormatInt z) = Some z.
Proof.
  intros Hz. unfold strconv.FormatInt, itoa. destruct z as [|p|p].
  - reflexivity.
  - cbn [Z.to_int NilZero.string_of_int].
    destruct (digits_of_positive p) as (c & rest & -> & Hc & Hd).
    destruct (isDigit_not_sign c Hc) as [Hplus Hminus].
    unfold strconv.ParseInt. rewrite Hplus, Hminus. cbn [orb].
    unfold strconv.ParseUintDigits. rewrite Hd. cbn [negb andb].
    rewrite (proj2 (Z.leb_gt _ _)) by lia. reflexivity.
  - cbn [Z.to_int NilZero.string_of_int].
    destruct (digits_of_positive p) as (c & rest & -> & Hc & Hd).
    unfold strconv.ParseInt.
    change (Ascii.eqb "-" "-") with true. change (Ascii.eqb "-" "+") with false.
    cbn [orb negb andb].
    unfold strconv.ParseUintDigits. rewrite Hd.
    rewrite (proj2 (Z.ltb_ge _ _)) by lia. reflexivity.
Qed.

(** C5.  On an N member [attributeValueToInterface] tries the integer
    parse, then the float parse, and otherwise keeps the text; it is a
    total function.  "42" becomes the int64 42, "3.14" the float64
    nearest to 3.14 (7070651414971679 * 2^-51), and "abc" stays "abc";
    the decimal text of every int64 becomes that int64. *)
Theorem number_int_then_float_then_text :
  (forall s,
      attributeValueToInterface (AttributeValueMemberN s)
      = match strconv.ParseInt s with
        | Some i => NInt64 i
        | None =>
            match strconv.ParseFloat s with
            | Some f => NFloat64 f
            | None => NString s
            end
        end)
  /\ (forall z, - 2 ^ 63 <= z < 2 ^ 63 ->
                 attributeValueToInterface (AttributeValueMemberN (strconv.FormatInt z))
                 = NInt64 z)
  /\ attributeValueToInterface (AttributeValueMemberN "42") = NInt64 42
  /\ attributeValueToInterface (AttributeValueMemberN "3.14")
     = NFloat64 (S754_finite false 7070651414971679 (-51))
  /\ attributeValueToInterface (AttributeValueMemberN "abc") = NString "abc"
  /\ strconv.ParseFloat "42" = Some (S754_finite false 5910974510923776 (-47)).
Proof.
  split; [reflexivity|]. split.
  - intros z Hz. cbn [attributeValueToInterface].
    by rewrite ParseInt_FormatInt.
  - repeat split; vm_compute; reflexivity.
Qed.

Lemma number_int_then_float_then_text_witness :
  attributeValueToInterface (AttributeValueMemberN (strconv.FormatInt (-7))) = NInt64 (-7).
Proof.
  apply (proj1 (proj2 number_int_then_float_then_text)). lia.
Defined.

End Codec.

(** ** Key conditions and continuation tokens *)
Section Client.
Import aws.

(** What the two conversions do to a continuation token, one after the
    other: every key attribute comes back as an S member that holds its
    display string. *)
Lemma token_round_trip (key : gmap string AttributeValue) :
  encodeExclusiveStartKey (displayItem key)
  = (fun v => AttributeValueMemberS (formatAttributeValue v)) <$> key.
Proof.
  apply map_eq; intros k.
  unfold encodeExclusiveStartKey, displayItem.
  rewrite lookup_omap, !lookup_fmap.
  destruct (key !! k); reflexivity.
Qed.

(** A token made of S members only is sent back as it was received. *)
Lemma token_round_trip_strings (key : gmap string string) :
  encodeExclusiveStartKey (displayItem (AttributeValueMemberS <$> key))
  = AttributeValueMemberS <$> key.
Proof.
  rewrite token_round_trip. apply map_eq; intros k.
  rewrite !lookup_fmap. destruct (key !! k); reflexivity.
Qed.

(** C3.  The continuation token [{id: N "42"}] of one Query call,
    supplied to the next call, is sent as [{id: S "42"}]: the number
    member has become a string member, so the token is not passed through
    unchanged.  ([Scan] re-encodes the token with the same loop.) *)
Theorem number_token_sent_as_string (c : Service) :
  let key : gmap string AttributeValue := {["id" := AttributeValueMemberN "42"]} in
  let sentKey : gmap string AttributeValue := {["id" := AttributeValueMemberS "42"]} in
  convertLastEvaluatedKey (Some key) = Some {["id" := NString "42"]}
  /\ fst (Query c "T" "id" "u1" "" "" "" (convertLastEvaluatedKey (Some key)))
     = [CallQuery {| qi_TableName := "T"; qi_Limit := 15;
                     qi_KeyConditionExpression := "#pk = :pk";
                     qi_ExpressionAttributeNames := {["#pk" := "id"]};
                     qi_ExpressionAttributeValues := {[":pk" := AttributeValueMemberS "u1"]};
                     qi_ExclusiveStartKey := Some sentKey |}]
  /\ fst (Scan c "T" (convertLastEvaluatedKey (Some key)))
     = [CallScan {| si_TableName := "T"; si_Limit := 15;
                    si_ExclusiveStartKey := Some sentKey |}]
  /\ sentKey <> key.
Proof.
  cbv zeta. repeat split; try (vm_compute; reflexivity).
  intros H. apply (f_equal (fun m => m !! "id")) in H.
  vm_compute in H. discriminate H.
Qed.

(** C1.  A query with operator [between] and one sort-key value is sent
    to the service: the request names the placeholder [:sk2] in its key
    condition and binds no value to it, and the outcome of [Query] is
    whatever the service answers.  No error is raised before the call. *)
Theorem between_with_one_value_is_sent (c : Service) :
  let input := buildQueryInput "T" "id" "u1" "ts" "2024-01-01" "between" None in
  Query c "T" "id" "u1" "ts" "2024-01-01" "between" None
  = ([CallQuery input],
     match svc_Query c input with
     | inl err => inl err
     | inr page => inr (convertPage page)
     end)
  /\ qi_KeyConditionExpression input = "#pk = :pk AND #sk BETWEEN :sk AND :sk2"
  /\ qi_ExpressionAttributeValues input !! ":sk" = Some (AttributeValueMemberS "2024-01-01")
  /\ qi_ExpressionAttributeValues input !! ":sk2" = None.
Proof. cbv zeta. repeat split; vm_compute; reflexivity. Qed.

End Client.

(** ** Preview columns *)
Section Preview.
Import aws main.

Lemma detectLoop_take (firstItem : gmap string Native) (tableInfo : TableInfo)
    (candidates acc : list string) :
  (length acc < 2)%nat ->
  detectLoop firstItem tableInfo candidates acc
  = (acc ++ take (2 - length acc) (List.filter (isHit firstItem tableInfo) candidates))%list.
Proof.
  revert acc. induction candidates as [|field rest IH]; intros acc Hacc; simpl.
  - rewrite take_nil. by rewrite app_nil_r.
  - unfold isHit at 1.
    destruct (firstItem !! field) as [v|] eqn:Hlk.
    + rewrite bool_decide_eq_true_2 by eauto. simpl.
      destruct (negb (field =? PartitionKey tableInfo)%string
                && negb (field =? SortKey tableInfo)%string) eqn:Hkey; simpl.
      * rewrite length_app. simpl.
        destruct acc as [|a [|b acc]]; simpl in *; try lia.
        -- rewrite (IH [field]) by (simpl; lia). reflexivity.
        -- destruct (List.filter _ rest); reflexivity.
      * by apply IH.
    + rewrite bool_decide_eq_false_2 by (intros [? ?]; congruence). simpl.
      by apply IH.
Qed.

Lemma isHit_true (firstItem : gmap string Native) (tableInfo : TableInfo)
    (field : string) :
  is_Some (firstItem !! field) ->
  field <> PartitionKey tableInfo -> field <> SortKey tableInfo ->
  isHit firstItem tableInfo field = true.
Proof.
  intros Hsome Hpk Hsk. unfold isHit.
  rewrite bool_decide_eq_true_2 by done.
  apply String.eqb_neq in Hpk, Hsk. by rewrite Hpk, Hsk.
Qed.

Lemma isHit_candidate (firstItem : gmap string Native) (tableInfo : TableInfo)
    (field : string) :
  field ∈ take 2 (List.filter (isHit firstItem tableInfo) candidateFields) ->
  field ∈ candidateFields /\ isHit firstItem tableInfo field = true.
Proof.
  intros H. apply elem_of_take in H as (i & H & _).
  apply list_elem_of_lookup_2 in H. apply list_elem_of_In, filter_In in H.
  destruct H as [H1 H2]. split; [by apply list_elem_of_In | done].
Qed.

(** C8, as the code has it.  The preview columns are the first two hits
    of the list title, Title, name, Name, displayName, description,
    Description, email, Email, in that order, a hit being a name that the
    first item of the first page has (exact match) and that is neither
    the partition-key nor the sort-key column.  In particular an item
    with [name] and [email] and none of the other candidates before
    [email] selects [name; email]. *)
Theorem preview_first_two_hits (firstItem : gmap string Native)
    (others : list (gmap string Native)) (tableInfo : TableInfo) :
  detectAdditionalFields (firstItem :: others) tableInfo
  = take 2 (List.filter (isHit firstItem tableInfo) candidateFields)
  /\ (length (detectAdditionalFields (firstItem :: others) tableInfo) <= 2)%nat
  /\ (forall field,
         field ∈ detectAdditionalFields (firstItem :: others) tableInfo ->
         field ∈ candidateFields
         /\ is_Some (firstItem !! field)
         /\ field <> PartitionKey tableInfo /\ field <> SortKey tableInfo)
  /\ (is_Some (firstItem !! "name") -> is_Some (firstItem !! "email") ->
      Forall (fun field => firstItem !! field = None)
             ["title"; "Title"; "Name"; "displayName"; "description"; "Description"] ->
      Forall (fun key => key <> "name" /\ key <> "email")
             [PartitionKey tableInfo; SortKey tableInfo] ->
      detectAdditionalFields (firstItem :: others) tableInfo = ["name"; "email"]).
Proof.
  assert (Heq : detectAdditionalFields (firstItem :: others) tableInfo
                = take 2 (List.filter (isHit firstItem tableInfo) candidateFields)).
  { unfold detectAdditionalFields. by rewrite detectLoop_take by (simpl; lia). }
  split; [exact Heq|]. split; [|split].
  - rewrite Heq, length_take. lia.
  - intros field Hin. rewrite Heq in Hin.
    apply isHit_candidate in Hin as [Hc Hhit]. unfold isHit in Hhit.
    apply andb_prop in Hhit as [Hhit Hsk]. apply andb_prop in Hhit as [Hsome Hpk].
    apply bool_decide_eq_true_1 in Hsome.
    apply negb_true_iff, String.eqb_neq in Hsk, Hpk. done.
  - intros [vn Hn] [ve He] Hnone Hkeys. rewrite Heq.
    apply Forall_cons_1 in Hkeys as [[Hpk1 Hpk2] Hkeys].
    apply Forall_cons_1 in Hkeys as [[Hsk1 Hsk2] _].
    repeat match goal with
           | H : Forall _ (_ :: _) |- _ => apply Forall_cons_1 in H as [? H]
           end.
    assert (Hname : isHit firstItem tableInfo "name" = true).
    { apply isHit_true; [eauto | congruence | congruence]. }
    assert (Hemail : isHit firstItem tableInfo "email" = true).
    { apply isHit_true; [eauto | congruence | congruence]. }
    assert (Hmiss : forall f, firstItem !! f = None -> isHit firstItem tableInfo f = false).
    { intros f Hf. unfold isHit.
      rewrite bool_decide_eq_false_2; [done | intros [? ?]; congruence]. }
    unfold candidateFields. simpl.
    rewrite Hname, Hemail, !Hmiss by assumption. reflexivity.
Qed.

Lemma preview_first_two_hits_witness :
  detectAdditionalFields [Example.contact] Example.events = ["name"; "email"].
Proof.
  apply (proj2 (proj2 (proj2
           (preview_first_two_hits Example.contact [] Example.events)))).
  - exists (NString "Ann"). vm_compute. reflexivity.
  - exists (NString "ann@example.org"). vm_compute. reflexivity.
  - repeat constructor; vm_compute; reflexivity.
  - repeat constructor; simpl; discriminate.
Defined.

(** C8 as stated fails: a first item with a [Title] attribute gets the
    preview column [Title], which is not on the list title, name,
    displayName, description, email. *)
Lemma preview_selects_capitalised_Title :
  detectAdditionalFields [Example.titled] Example.events = ["Title"]
  /\ ~ In "Title" specPreferenceList.
Proof.
  split; [vm_compute; reflexivity|].
  unfold specPreferenceList. simpl. intuition discriminate.
Qed.

End Preview.

(** ** Export of an item *)
Section ExportItem.
Import aws main.
Variable formatFloat jsonFloat : spec_float -> string.

Lemma ReplaceAll_mapBytes (s : string) (old new : ascii) :
  ReplaceAll s old new = mapBytes (fun c => if Ascii.eqb c old then new else c) s.
Proof. induction s as [|c s IH]; simpl; [done | by rewrite IH]. Qed.

Lemma mapBytes_compose (f g : ascii -> ascii) (s : string) :
  mapBytes g (mapBytes f s) = mapBytes (fun c => g (f c)) s.
Proof. induction s as [|c s IH]; simpl; [done | by rewrite IH]. Qed.

Lemma mapBytes_ext (f g : ascii -> ascii) (s : string) :
  (forall c, f c = g c) -> mapBytes f s = mapBytes g s.
Proof. intros H. induction s as [|c s IH]; simpl; [done | by rewrite H, IH]. Qed.

Lemma sanitize_three (c : ascii) :
  (let c1 := if Ascii.eqb c "/" then "_"%char else c in
   let c2 := if Ascii.eqb c1 " " then "_"%char else c1 in
   if Ascii.eqb c2 ":" then "_"%char else c2) = sanitize c.
Proof.
  unfold sanitize. cbv zeta.
  destruct (Ascii.eqb c "/") eqn:E1; [reflexivity|].
  destruct (Ascii.eqb c " ") eqn:E2; [reflexivity|].
  destruct (Ascii.eqb c ":") eqn:E3; reflexivity.
Qed.

Lemma sanitize_clean (c : ascii) :
  sanitize c <> "/"%char /\ sanitize c <> " "%char /\ sanitize c <> ":"%char.
Proof.
  unfold sanitize.
  destruct (Ascii.eqb c "/") eqn:E1; [simpl; by repeat split|].
  destruct (Ascii.eqb c " ") eqn:E2; [simpl; by repeat split|].
  destruct (Ascii.eqb c ":") eqn:E3; [simpl; by repeat split|].
  simpl. apply Ascii.eqb_neq in E1, E2, E3. done.
Qed.

Lemma mapBytes_sanitize_clean (s : string) :
  Forall (fun c => c <> "/"%char /\ c <> " "%char /\ c <> ":"%char)
         (list_ascii_of_string (mapBytes sanitize s)).
Proof.
  induction s as [|c s IH]; simpl; constructor; [apply sanitize_clean | exact IH].
Qed.

(** C9.  The export hands [os.WriteFile] the 4-space-indented JSON text
    of the whole raw item under a name made of the partition-key value,
    followed by an underscore and the sort-key value when the table has a
    sort key, with every slash, space and colon replaced by an underscore,
    and the suffix .json.  The record [{id, ts, title, tags}] of the
    scenario is exported as u1_2024-01-01.json with its four fields, the
    tags as an array of two strings. *)
Theorem export_item (tableInfo : TableInfo) (rawItem : gmap string Native) :
  let stem :=
    if String.eqb (SortKey tableInfo) ""
    then fmt.SprintLookup formatFloat rawItem (PartitionKey tableInfo)
    else fmt.SprintLookup formatFloat rawItem (PartitionKey tableInfo)
         ++ "_" ++ fmt.SprintLookup formatFloat rawItem (SortKey tableInfo) in
  saveItemAsJSON formatFloat jsonFloat tableInfo rawItem
  = match json.MarshalIndent jsonFloat rawItem with
    | inl err => inl err
    | inr text => inr (mapBytes sanitize stem ++ ".json", text)
    end
  /\ Forall (fun c => c <> "/"%char /\ c <> " "%char /\ c <> ":"%char)
            (list_ascii_of_string (mapBytes sanitize stem))
  /\ saveItemAsJSON formatFloat jsonFloat Example.events
       (aws.rawItem Example.hello)
     = inr ("u1_2024-01-01.json", Example.helloJson).
Proof.
  cbv zeta. split; [|split].
  - unfold saveItemAsJSON, exportFilename.
    rewrite !ReplaceAll_mapBytes, !mapBytes_compose.
    rewrite (mapBytes_ext _ sanitize) by apply sanitize_three.
    destruct (String.eqb (SortKey tableInfo) ""); reflexivity.
  - apply mapBytes_sanitize_clean.
  - vm_compute. reflexivity.
Qed.

End ExportItem.

(** ** Listing the tables *)
Section Listing.
Import aws.










Variable sort_Slice : forall A : Type, (A -> A -> bool) -> list A -> list A.


End Listing.



(** ** The page history *)
Section Paging.
Import aws main.
Variable formatFloat : spec_float -> string.
Variable client : Service.
Variable tableInfo : TableInfo.
Variable action : Action.

Local Abbreviation next := (main.next formatFloat client tableInfo action).
Local Abbreviation previous := (main.previous formatFloat tableInfo action).
Local Abbreviation fetch := (fetchPage client tableInfo action).
Local Abbreviation cells := (tableCells formatFloat tableInfo).

Lemma next_at_end (v : ResultsView) :
  ref_LastEvaluatedKey (result v) = None -> next v = v.
Proof. intros H. unfold main.next. by rewrite H. Qed.

Lemma iter_next_at_end (v : ResultsView) (n : nat) :
  ref_LastEvaluatedKey (result v) = None -> Nat.iter n next v = v.
Proof.
  intros H. induction n as [|n IH]; simpl; [done|].
  rewrite IH. by apply next_at_end.
Qed.

(** C4.  When the page on display came without a continuation token,
    Ctrl+N does nothing, however often it is pressed: no page is handed
    to the table, no request is sent, and the whole view (page history,
    current page index, displayed table) stays as it is. *)
Theorem next_at_end_is_inert (v : ResultsView) (n : nat) :
  ref_LastEvaluatedKey (result v) = None ->
  nextShown formatFloat client tableInfo action v = None
  /\ Nat.iter n next v = v
  /\ length (pageHistory (Nat.iter n next v)) = length (pageHistory v)
  /\ currentPage (Nat.iter n next v) = currentPage v
  /\ resultsTable (Nat.iter n next v) = resultsTable v
  /\ sent (Nat.iter n next v) = sent v.
Proof.
  intros H. rewrite iter_next_at_end by done.
  unfold nextShown. rewrite H. by repeat split.
Qed.

(** *** References and the heap *)

Lemma deref_app (h h2 : list (gmap string Native)) (l : nat) :
  (l < length h)%nat -> deref (h ++ h2) l = deref h l.
Proof. intros H. unfold deref. by rewrite lookup_app_l. Qed.

Lemma map_deref_app (h h2 : list (gmap string Native)) (refs : list nat) :
  Forall (fun l => (l < length h)%nat) refs ->
  map (deref (h ++ h2)) refs = map (deref h) refs.
Proof.
  induction 1 as [|l refs Hl _ IH]; simpl; [done|].
  by rewrite IH, deref_app.
Qed.

Lemma map_deref_alloc (h its : list (gmap string Native)) :
  map (deref (h ++ its)) (seq (length h) (length its)) = its.
Proof.
  revert h. induction its as [|x its IH]; intros h; simpl; [done|].
  f_equal.
  - unfold deref. by rewrite list_lookup_middle.
  - specialize (IH (h ++ [x])%list).
    rewrite <- app_assoc, length_app in IH. simpl in IH.
    by rewrite Nat.add_1_r in IH.
Qed.

Lemma seq_below (n len bound : nat) :
  (n + len <= bound)%nat -> Forall (fun l => (l < bound)%nat) (seq n len).
Proof.
  intros Hb. apply Forall_forall. intros l Hl.
  apply list_elem_of_In, in_seq in Hl. lia.
Qed.

Lemma tableCells_ext (h1 h2 : list (gmap string Native)) (refs1 refs2 : list nat)
    (fields : list string) :
  map (deref h1) refs1 = map (deref h2) refs2 ->
  cells h1 refs1 fields = cells h2 refs2 fields.
Proof.
  intros H. unfold tableCells. f_equal.
  assert (Hrows : map (fun l => dataRow formatFloat tableInfo fields (deref h1 l)) refs1
                  = map (fun l => dataRow formatFloat tableInfo fields (deref h2 l)) refs2).
  { rewrite <- (map_map (deref h1) (dataRow formatFloat tableInfo fields)).
    rewrite <- (map_map (deref h2) (dataRow formatFloat tableInfo fields)).
    by rewrite H. }
  destruct refs1, refs2; done.
Qed.

(** *** What the two keys do *)

Lemma fetch_one_call (token : option (gmap string Native)) :
  length (fst (fetch token)) = 1%nat.
Proof. unfold fetchPage. by destruct action. Qed.

Lemma next_failed (v : ResultsView) (key : gmap string Native) (err : error) :
  ref_LastEvaluatedKey (result v) = Some key ->
  snd (fetch (Some key)) = inl err ->
  next v = {| heap := heap v; sent := (sent v ++ fst (fetch (Some key)))%list;
              result := result v; currentPage := currentPage v;
              pageHistory := pageHistory v;
              additionalFields := additionalFields v;
              resultsTable := resultsTable v; pageHeader := pageHeader v |}.
Proof.
  intros Hkey Herr. unfold main.next. rewrite Hkey.
  destruct (fetch (Some key)) as [calls r]. simpl in *. by subst r.
Qed.

Lemma next_fetched (v : ResultsView) (key : gmap string Native) (r : QueryResult) :
  ref_LastEvaluatedKey (result v) = Some key ->
  snd (fetch (Some key)) = inr r ->
  let res := {| ref_Items := seq (length (heap v)) (length (Items r));
                ref_RawItems := RawItems r;
                ref_LastEvaluatedKey := LastEvaluatedKey r |} in
  next v = {| heap := (heap v ++ Items r)%list;
              sent := (sent v ++ fst (fetch (Some key)))%list;
              result := res;
              currentPage := S (currentPage v);
              pageHistory :=
                if (length (pageHistory v) <? S (currentPage v))%nat
                then (pageHistory v ++ [recordPage action res])%list
                else pageHistory v;
              additionalFields := additionalFields v;
              resultsTable := cells (heap v ++ Items r)%list (ref_Items res)
                                    (additionalFields v);
              pageHeader := headerText tableInfo action (S (currentPage v)) |}.
Proof.
  intros Hkey Hr. unfold main.next. rewrite Hkey.
  destruct (fetch (Some key)) as [calls r']. simpl in *. by subst r'.
Qed.

Lemma previous_at_first (v : ResultsView) :
  (currentPage v <= 1)%nat -> previous v = Some v.
Proof.
  intros H. unfold main.previous.
  by rewrite (proj2 (Nat.ltb_ge 1 (currentPage v))).
Qed.

Lemma previous_back (v : ResultsView) (p : pageState) :
  (1 < currentPage v)%nat ->
  pageHistory v !! (currentPage v - 2)%nat = Some p ->
  previous v = Some {| heap := heap v; sent := sent v;
                       result := restorePage p;
                       currentPage := (currentPage v - 1)%nat;
                       pageHistory := pageHistory v;
                       additionalFields := additionalFields v;
                       resultsTable := cells (heap v) (items p) (additionalFields v);
                       pageHeader :=
                         headerText tableInfo action (currentPage v - 1)%nat |}.
Proof.
  intros H Hp. unfold main.previous.
  rewrite (proj2 (Nat.ltb_lt 1 (currentPage v))) by done.
  replace (currentPage v - 1 - 1)%nat with (currentPage v - 2)%nat by lia.
  by rewrite Hp.
Qed.

(** *** The invariant *)

Local Abbreviation Inv := (PagingInv formatFloat client tableInfo action).

Lemma Inv_submit (v : ResultsView) :
  snd (submit formatFloat client tableInfo action) = inr v -> Inv v.
Proof.
  unfold submit. destruct (fetch None) as [calls [err|first]]; simpl; [done|].
  intros [= <-]. split; simpl.
  - lia.
  - constructor; [|constructor]. simpl. apply seq_below. simpl. lia.
  - apply seq_below. simpl. lia.
  - eexists. split; [reflexivity|]. by split.
  - intros i p q _ Hq. by destruct i.
  - reflexivity.
Qed.

Lemma Inv_previous (v v' : ResultsView) :
  Inv v -> previous v = Some v' -> Inv v'.
Proof.
  intros HI Hprev.
  destruct (decide (1 < currentPage v)%nat) as [Hlt|Hge].
  - destruct (inv_page _ _ _ _ _ HI) as [_ Hle].
    destruct (lookup_lt_is_Some_2 (pageHistory v) (currentPage v - 2)%nat)
      as [p Hp]; [lia|].
    rewrite (previous_back v p Hlt Hp) in Hprev. injection Hprev as <-.
    split; simpl.
    + lia.
    + apply (inv_refs _ _ _ _ _ HI).
    + pose proof (inv_refs _ _ _ _ _ HI) as Hrefs.
      rewrite Forall_forall in Hrefs. apply Hrefs.
      by eapply list_elem_of_lookup_2.
    + exists p. replace (currentPage v - 1 - 1)%nat with (currentPage v - 2)%nat by lia.
      by repeat split.
    + apply (inv_chain _ _ _ _ _ HI).
    + reflexivity.
  - rewrite previous_at_first in Hprev by lia. by injection Hprev as <-.
Qed.

Lemma Inv_next (v : ResultsView) : Inv v -> Inv (next v).
Proof.
  intros HI.
  destruct (ref_LastEvaluatedKey (result v)) as [key|] eqn:Hkey;
    [|by rewrite next_at_end].
  destruct (snd (fetch (Some key))) as [err|r] eqn:Hr.
  { rewrite (next_failed v key err Hkey Hr). destruct HI. by split. }
  rewrite (next_fetched v key r Hkey Hr).
  destruct HI as [[Hge Hle] Hrefs Hres (p & Hp & Hshown & Hlek) Hchain Htable].
  assert (Hold : forall q, q ∈ pageHistory v ->
              map (deref (heap v ++ Items r)) (items q) = map (deref (heap v)) (items q)).
  { intros q Hq. apply map_deref_app. rewrite Forall_forall in Hrefs. by apply Hrefs. }
  assert (Hgrow : Forall (fun p => Forall (fun l => (l < length (heap v ++ Items r))%nat)
                                          (items p)) (pageHistory v)).
  { eapply Forall_impl; [exact Hrefs|]. simpl. intros q Hq.
    eapply Forall_impl; [exact Hq|]. simpl. intros l Hl. rewrite length_app. lia. }
  assert (Hfresh : Forall (fun l => (l < length (heap v ++ Items r))%nat)
                          (seq (length (heap v)) (length (Items r)))).
  { apply seq_below. rewrite length_app. lia. }
  destruct (length (pageHistory v) <? S (currentPage v))%nat eqn:Hnew.
  - (* a new page is appended *)
    apply Nat.ltb_lt in Hnew.
    assert (Hcur : currentPage v = length (pageHistory v)) by lia.
    split; simpl.
    + rewrite length_app. simpl. lia.
    + apply Forall_app. split; [exact Hgrow|]. by constructor.
    + exact Hfresh.
    + eexists. split.
      * rewrite Nat.sub_0_r, Hcur. apply list_lookup_middle. reflexivity.
      * by split.
    + intros i p' q Hp' Hq.
      destruct (decide (S i < length (pageHistory v))%nat) as [Hin|Hout].
      * rewrite lookup_app_l in Hp' by lia. rewrite lookup_app_l in Hq by lia.
        destruct (Hchain i p' q Hp' Hq) as (key' & r' & ? & ? & Hitems & ?).
        exists key', r'. repeat split; try done.
        rewrite Hold; [done | by eapply list_elem_of_lookup_2].
      * assert (Hi : S i = length (pageHistory v)).
        { apply lookup_lt_Some in Hq. rewrite length_app in Hq. simpl in Hq. lia. }
        rewrite Hi, list_lookup_middle in Hq by reflexivity. injection Hq as <-.
        rewrite lookup_app_l in Hp' by lia.
        replace i with (currentPage v - 1)%nat in Hp' by lia.
        rewrite Hp in Hp'. injection Hp' as <-.
        exists key, r. simpl. repeat split; try done.
        -- congruence.
        -- apply map_deref_alloc.
    + reflexivity.
  - (* the page is already in the history *)
    apply Nat.ltb_ge in Hnew.
    destruct (lookup_lt_is_Some_2 (pageHistory v) (currentPage v)) as [q Hq]; [lia|].
    destruct (Hchain (currentPage v - 1)%nat p q Hp) as (key' & r' & Hk' & Hr' & Hitems & Hlek');
      [by replace (S (currentPage v - 1)) with (currentPage v) by lia|].
    assert (key' = key) as -> by congruence.
    assert (r' = r) as -> by congruence.
    split; simpl.
    + lia.
    + exact Hgrow.
    + exact Hfresh.
    + exists q. rewrite Nat.sub_0_r. split; [done|]. split; [|done].
      unfold shownItems. simpl.
      rewrite map_deref_alloc, Hold; [done | by eapply list_elem_of_lookup_2].
    + intros i p' q' Hp' Hq'.
      destruct (Hchain i p' q' Hp' Hq') as (key' & r' & ? & ? & Hitems' & ?).
      exists key', r'. repeat split; try done.
      rewrite Hold; [done | by eapply list_elem_of_lookup_2].
    + reflexivity.
Qed.

Lemma Paged_Inv (v : ResultsView) :
  Paged formatFloat client tableInfo action v -> Inv v.
Proof.
  induction 1 as [v H | v _ IH | v v' _ IH Hprev].
  - by apply Inv_submit.
  - by apply Inv_next.
  - by eapply Inv_previous.
Qed.

(** *** When the display and the history share their items *)

Lemma shares_submit (v : ResultsView) :
  snd (submit formatFloat client tableInfo action) = inr v -> SharesHistory v.
Proof.
  unfold submit. destruct (fetch None) as [calls [err|first]]; simpl; [done|].
  intros [= <-]. by eexists.
Qed.

Lemma shares_previous (v v' : ResultsView) :
  Inv v -> (1 < currentPage v)%nat -> previous v = Some v' -> SharesHistory v'.
Proof.
  intros HI Hlt Hprev.
  destruct (inv_page _ _ _ _ _ HI) as [_ Hle].
  destruct (lookup_lt_is_Some_2 (pageHistory v) (currentPage v - 2)%nat)
    as [p Hp]; [lia|].
  rewrite (previous_back v p Hlt Hp) in Hprev. injection Hprev as <-.
  exists p. simpl.
  by replace (currentPage v - 1 - 1)%nat with (currentPage v - 2)%nat by lia.
Qed.

Lemma shares_next_new (v : ResultsView) (key : gmap string Native) (r : QueryResult) :
  ref_LastEvaluatedKey (result v) = Some key ->
  snd (fetch (Some key)) = inr r ->
  currentPage v = length (pageHistory v) ->
  SharesHistory (next v).
Proof.
  intros Hkey Hr Hcur. rewrite (next_fetched v key r Hkey Hr). simpl.
  rewrite (proj2 (Nat.ltb_lt _ _)) by lia.
  eexists. simpl. split.
  - rewrite Nat.sub_0_r, Hcur. by apply list_lookup_middle.
  - reflexivity.
Qed.

(** *** Going back and forth *)





End Paging.



Lemma next_at_end_is_inert_witness :
  main.nextShown Example.noFloat Example.feed Example.events main.ScanAction
    Example.page3 = None
  /\ Nat.iter 5 Example.ctrlN Example.page3 = Example.page3
  /\ length (main.pageHistory (Nat.iter 5 Example.ctrlN Example.page3))
     = length (main.pageHistory Example.page3)
  /\ main.currentPage (Nat.iter 5 Example.ctrlN Example.page3)
     = main.currentPage Example.page3
  /\ main.resultsTable (Nat.iter 5 Example.ctrlN Example.page3)
     = main.resultsTable Example.page3
  /\ main.sent (Nat.iter 5 Example.ctrlN Example.page3) = main.sent Example.page3.
Proof.
  apply (next_at_end_is_inert Example.noFloat Example.feed Example.events
           main.ScanAction Example.page3 5).
  vm_compute. reflexivity.
Defined.

(** ** The item view *)
Section ItemView.
Import aws main.
Variable formatFloat : spec_float -> string.
Variable tableInfo : TableInfo.

Local Abbreviation step := (schemaStep formatFloat).
Local Abbreviation openItem := (main.openItem formatFloat tableInfo).



(** After the loop the item has lost its schema fields and nothing else. *)
Lemma schemaLoop_item (fields : list string) (item : gmap string Native)
    (rows : list (string * string)) (f : string) :
  fst (fold_left step fields (item, rows)) !! f
  = if decide (f ∈ fields) then None else item !! f.
Proof.
  revert item rows. induction fields as [|g fields IH]; intros item rows.
  - cbn [fold_left fst]. rewrite decide_False; [done | apply not_elem_of_nil].
  - cbn [fold_left]. unfold schemaStep at 2.
    destruct (item !! g) as [y|] eqn:Hg; rewrite IH;
      destruct (decide (f ∈ fields)) as [Hf|Hf].
    + rewrite decide_True; [done | by apply elem_of_cons; right].
    + destruct (decide (f = g)) as [->|Hne].
      * rewrite decide_True by (by apply elem_of_cons; left).
        apply lookup_delete_eq.
      * rewrite decide_False by (rewrite elem_of_cons; tauto).
        by apply lookup_delete_ne.
    + rewrite decide_True; [done | by apply elem_of_cons; right].
    + destruct (decide (f = g)) as [->|Hne].
      * by rewrite decide_True by (by apply elem_of_cons; left).
      * by rewrite decide_False by (rewrite elem_of_cons; tauto).
Qed.



(** Without a raw item for the row, which is the case in the query view
    once Ctrl+B has restored a page, Enter does not open an item view: the
    index into [result.RawItems] is out of range. *)
Lemma openItem_without_raw (v : ResultsView) (row : nat) :
  (0 < row <= length (ref_Items (result v)))%nat ->
  ref_RawItems (result v) !! (row - 1)%nat = None ->
  openItem v row = None.
Proof.
  intros [Hrow Hlen] Hraw. unfold main.openItem.
  rewrite (proj2 (Nat.ltb_lt 0 row)), (proj2 (Nat.leb_le _ _)) by done.
  simpl. rewrite Hraw. by destruct (ref_Items (result v) !! (row - 1)%nat).
Qed.


End ItemView.



(** * Further properties *)

(** ** The item counts of the table list *)
Section Commas.
Import main.

Lemma append_cons (c : ascii) (s t : string) : String c s ++ t = String c (s ++ t).
Proof. reflexivity. Qed.

Lemma append_nil_l (t : string) : "" ++ t = t.
Proof. reflexivity. Qed.

Lemma substring_full (s : string) : substring 0 (String.length s) s = s.
Proof. induction s as [|c s IH]; simpl; [done | by rewrite IH]. Qed.

Lemma substring_split (s : string) (k : nat) :
  (k <= String.length s)%nat ->
  substring 0 k s ++ substring k (String.length s - k) s = s.
Proof.
  revert k. induction s as [|c s IH]; intros k Hk.
  - by destruct k.
  - destruct k as [|k].
    + rewrite Nat.sub_0_r, substring_full. reflexivity.
    + simpl in *. rewrite append_cons, IH by lia. reflexivity.
Qed.

Lemma length_substring (s : string) (n m : nat) :
  (n + m <= String.length s)%nat -> String.length (substring n m s) = m.
Proof.
  revert n m. induction s as [|c s IH]; intros n m H; simpl in *.
  - destruct n, m; simpl in *; lia.
  - destruct n as [|n].
    + destruct m as [|m]; simpl; [done|]. f_equal. apply IH. simpl. lia.
    + apply IH. lia.
Qed.

Lemma length_append (s t : string) :
  String.length (s ++ t) = (String.length s + String.length t)%nat.
Proof.
  induction s as [|c s IH]; [done|].
  rewrite append_cons. simpl. by rewrite IH.
Qed.

Lemma append_assoc (s t u : string) : (s ++ t) ++ u = s ++ t ++ u.
Proof.
  induction s as [|c s IH]; [done|]. by rewrite !append_cons, IH.
Qed.

Lemma append_nil_r (s : string) : s ++ "" = s.
Proof.
  induction s as [|c s IH]; [done|]. by rewrite append_cons, IH.
Qed.

(** What the loop keeps: the text is the rest followed by the parts, the
    parts have three bytes each, and the rest is not empty. *)
Lemma commaLoop_spec (fuel : nat) (s : string) (parts : list string) :
  (String.length s <= 3 + 3 * fuel)%nat ->
  (0 < String.length s)%nat ->
  Forall (fun part => String.length part = 3%nat) parts ->
  exists first rest,
    commaLoop fuel s parts = (first, rest)
    /\ first ++ String.concat "" rest = s ++ String.concat "" parts
    /\ (1 <= String.length first <= 3)%nat
    /\ Forall (fun part => String.length part = 3%nat) rest.
Proof.
  revert s parts. induction fuel as [|fuel IH]; intros s parts Hfuel Hpos Hparts.
  - exists s, parts. simpl. split_and!; try done; lia.
  - simpl. destruct (3 <? String.length s)%nat eqn:Hlen.
    + apply Nat.ltb_lt in Hlen.
      destruct (IH (substring 0 (String.length s - 3) s)
                   (substring (String.length s - 3) 3 s :: parts))
        as (first & rest & Hloop & Hcat & Hfirst & Hrest).
      * rewrite length_substring by lia. lia.
      * rewrite length_substring by lia. lia.
      * constructor; [|done]. apply length_substring. lia.
      * exists first, rest. split_and!; try done; try lia.
        rewrite Hcat.
        assert (Hcons : forall (x : string) (l : list string),
                   String.concat "" (x :: l) = x ++ String.concat "" l).
        { intros x [|y l]; simpl; [by rewrite append_nil_r | done]. }
        pose proof (substring_split s (String.length s - 3) ltac:(lia)) as Hs.
        replace (String.length s - (String.length s - 3))%nat with 3%nat in Hs by lia.
        by rewrite Hcons, <- append_assoc, Hs.
    + apply Nat.ltb_ge in Hlen. exists s, parts. split_and!; try done; lia.
Qed.

Lemma FormatInt_nonempty (n : Z) : (0 < String.length (strconv.FormatInt n))%nat.
Proof.
  unfold strconv.FormatInt, itoa. destruct n as [|p|p]; simpl.
  - lia.
  - destruct (digits_of_positive p) as (c & rest & -> & _). simpl. lia.
  - lia.
Qed.

Lemma formatWithCommas_parts (n : Z) :
  exists first rest,
    formatWithCommas n = Join (first :: rest) ","
    /\ first ++ String.concat "" rest = strconv.FormatInt n
    /\ (1 <= String.length first <= 3)%nat
    /\ Forall (fun part => String.length part = 3%nat) rest.
Proof.
  pose proof (FormatInt_nonempty n) as Hpos.
  destruct (commaLoop_spec (String.length (strconv.FormatInt n)) (strconv.FormatInt n) [])
    as (first & rest & Hloop & Hcat & Hfirst & Hrest); [lia | done | constructor |].
  exists first, rest. split_and!; try done; try lia.
  - unfold formatWithCommas, commaParts. rewrite Hloop.
    by rewrite (proj2 (Nat.ltb_lt 0 (String.length first))) by lia.
  - rewrite Hcat. simpl. apply append_nil_r.
Qed.

(** X1.  [formatWithCommas] cuts the decimal text of the number into
    parts from the right and joins them with commas: put one after the
    other the parts give the text back, every part but the first has three
    bytes, and the first has one to three.  A number of up to three bytes
    of text is printed as it is. *)
Theorem formatWithCommas_groups (n : Z) :
  (exists first rest,
      formatWithCommas n = Join (first :: rest) ","
      /\ first ++ String.concat "" rest = strconv.FormatInt n
      /\ (1 <= String.length first <= 3)%nat
      /\ Forall (fun part => String.length part = 3%nat) rest
      /\ String.length (formatWithCommas n)
         = (String.length (strconv.FormatInt n) + length rest)%nat)
  /\ ((String.length (strconv.FormatInt n) <= 3)%nat ->
      formatWithCommas n = strconv.FormatInt n).
Proof.
  split.
  - destruct (formatWithCommas_parts n) as (first & rest & Hfmt & Hcat & Hfirst & Hrest).
    exists first, rest. split_and!; try done; try lia.
    rewrite Hfmt, <- Hcat. clear. unfold Join.
    revert first. induction rest as [|x rest IH]; intros first.
    + simpl. rewrite append_nil_r. lia.
    + change (String.concat "," (first :: x :: rest))
        with (first ++ "," ++ String.concat "," (x :: rest)).
      rewrite !length_append, IH.
      assert (Hcons : String.concat "" (x :: rest) = x ++ String.concat "" rest).
      { destruct rest; simpl; [by rewrite append_nil_r | done]. }
      rewrite Hcons. rewrite !length_append. simpl. lia.
  - intros Hshort. unfold formatWithCommas, commaParts.
    pose proof (FormatInt_nonempty n) as Hpos.
    destruct (String.length (strconv.FormatInt n)) as [|k] eqn:Hlen; [lia|].
    simpl. rewrite Hlen.
    rewrite (proj2 (Nat.ltb_ge 3 (S k))) by lia.
    rewrite Hlen. simpl. reflexivity.
Qed.

Lemma formatWithCommas_groups_witness :
  formatWithCommas 512 = strconv.FormatInt 512.
Proof.
  apply (proj2 (formatWithCommas_groups 512)). vm_compute. lia.
Defined.

Lemma stripCommas_app (s t : string) :
  stripCommas (s ++ t) = stripCommas s ++ stripCommas t.
Proof.
  induction s as [|c s IH]; [done|].
  rewrite append_cons. simpl.
  destruct (Ascii.eqb c ","); [done|]. by rewrite append_cons, IH.
Qed.

Lemma stripCommas_Join (parts : list string) :
  stripCommas (Join parts ",") = stripCommas (String.concat "" parts).
Proof.
  unfold Join. induction parts as [|x [|y parts] IH]; simpl in *; [done | done |].
  rewrite !stripCommas_app. simpl. by rewrite IH.
Qed.

Lemma stripCommas_uint (d : Decimal.uint) :
  stripCommas (NilEmpty.string_of_uint d) = NilEmpty.string_of_uint d.
Proof. induction d; simpl; [done | by rewrite IHd ..]. Qed.

Lemma stripCommas_FormatInt (n : Z) :
  stripCommas (strconv.FormatInt n) = strconv.FormatInt n.
Proof.
  unfold strconv.FormatInt, itoa. destruct n as [|p|p]; simpl; [done | |].
  - unfold NilZero.string_of_uint. destruct (Pos.to_uint p) eqn:E; [done|..];
      rewrite <- E; apply stripCommas_uint.
  - f_equal. unfold NilZero.string_of_uint. destruct (Pos.to_uint p) eqn:E; [done|..];
      rewrite <- E; apply stripCommas_uint.
Qed.

(** X2.  Taking the commas out of [formatWithCommas n] gives the decimal
    text of [n] back, for every [n]: the commas are the only thing the
    function adds. *)
Theorem formatWithCommas_strip (n : Z) :
  stripCommas (formatWithCommas n) = strconv.FormatInt n.
Proof.
  destruct (formatWithCommas_parts n) as (first & rest & -> & Hcat & _).
  rewrite stripCommas_Join.
  assert (Hcons : String.concat "" (first :: rest) = first ++ String.concat "" rest).
  { destruct rest; simpl; [by rewrite append_nil_r | done]. }
  by rewrite Hcons, Hcat, stripCommas_FormatInt.
Qed.

End Commas.

(** ** The cells of the results table *)
Section Cells.
Import aws main.
Variable formatFloat : spec_float -> string.
Variable tableInfo : TableInfo.

Lemma substring_prefix_app (a b : string) :
  substring 0 (String.length a) (a ++ b) = a.
Proof.
  induction a as [|c a IH]; [by destruct b|].
  rewrite append_cons. simpl. by rewrite IH.
Qed.

(** X3.  [truncate] never returns more than 50 bytes: a value of up to 50
    bytes is shown whole, a longer one is cut to 50 bytes that end in three
    dots; in both cases the first 47 bytes of the value are kept. *)
Theorem truncate_bounds (value : string) :
  String.length (truncate value) = Nat.min (String.length value) 50
  /\ substring 0 47 (truncate value) = substring 0 47 value
  /\ ((String.length value <= 50)%nat -> truncate value = value)
  /\ ((50 < String.length value)%nat -> substring 47 3 (truncate value) = "...").
Proof.
  unfold truncate. destruct (50 <? String.length value)%nat eqn:Hlen.
  - apply Nat.ltb_lt in Hlen.
    assert (H47 : String.length (substring 0 47 value) = 47%nat)
      by (apply length_substring; lia).
    split_and!.
    + rewrite length_append, H47. simpl. lia.
    + pose proof (substring_prefix_app (substring 0 47 value) "...") as H.
      by rewrite H47 in H.
    + lia.
    + intros _. clear Hlen. revert H47.
      generalize (substring 0 47 value). intros s Hs.
      do 47 (destruct s as [|? s]; [discriminate Hs|]).
      destruct s; [reflexivity | discriminate Hs].
  - apply Nat.ltb_ge in Hlen. split_and!; try done; lia.
Qed.

Lemma truncate_bounds_witness :
  truncate "short" = "short".
Proof.
  apply (proj1 (proj2 (proj2 (truncate_bounds "short")))). vm_compute. lia.
Defined.

Lemma length_headers (fields : list string) :
  length (headers tableInfo fields)
  = ((if String.eqb (SortKey tableInfo) "" then 1 else 2) + length fields)%nat.
Proof.
  unfold headers. destruct (String.eqb (SortKey tableInfo) ""); simpl; [done|].
  done.
Qed.

Lemma length_dataRow (fields : list string) (item : gmap string Native) :
  length (dataRow formatFloat tableInfo fields item)
  = length (headers tableInfo fields).
Proof.
  unfold dataRow, headers.
  destruct (String.eqb (SortKey tableInfo) ""); simpl; by rewrite length_map.
Qed.

(** X4.  The results table is rectangular: its first row is the header
    (partition key, sort key if the table has one, then the preview
    columns), there is one row per item, every item row has as many cells
    as the header, and no preview cell is longer than 50 bytes.  Only a
    page without items gives the one-cell row "No items found.". *)
Theorem tableCells_shape (h : list (gmap string Native)) (refs : list nat)
    (fields : list string) :
  hd_error (tableCells formatFloat tableInfo h refs fields)
  = Some (headers tableInfo fields)
  /\ length (tableCells formatFloat tableInfo h refs fields)
     = S (Nat.max 1 (length refs))
  /\ (refs = [] ->
      tableCells formatFloat tableInfo h refs fields
      = [headers tableInfo fields; ["No items found."]])
  /\ (refs <> [] ->
      Forall (fun row => length row = length (headers tableInfo fields))
             (tableCells formatFloat tableInfo h refs fields)
      /\ Forall (fun row =>
                   Forall (fun cell => (String.length cell <= 50)%nat)
                          (drop (length (headers tableInfo [])) row))
                (tl (tableCells formatFloat tableInfo h refs fields))).
Proof.
  unfold tableCells. split_and!.
  - done.
  - destruct refs; simpl; [done|]. rewrite length_map. lia.
  - by intros ->.
  - intros Hne. destruct refs as [|l refs]; [done|]. split.
    + constructor; [done|]. apply Forall_forall. intros row Hrow.
      apply list_elem_of_In, in_map_iff in Hrow as (l' & <- & _).
      apply length_dataRow.
    + cbn [tl]. apply Forall_forall. intros row Hrow.
      apply list_elem_of_In, in_map_iff in Hrow as (l' & <- & _).
      unfold dataRow, headers.
      destruct (String.eqb (SortKey tableInfo) ""); simpl;
        apply Forall_forall; intros cell Hcell;
        apply list_elem_of_In, in_map_iff in Hcell as (field & <- & _);
        (destruct (deref h l' !! field); [|simpl; lia]);
        rewrite (proj1 (truncate_bounds _)); lia.
Qed.

End Cells.

Lemma tableCells_shape_witness :
  Forall (fun row => length row = length (main.headers Example.events ["name"]))
         (main.tableCells Example.noFloat Example.events
            (main.heap Example.page1) [0%nat] ["name"])
  /\ Forall (fun row =>
               Forall (fun cell => (String.length cell <= 50)%nat)
                      (drop (length (main.headers Example.events [])) row))
            (tl (main.tableCells Example.noFloat Example.events
                   (main.heap Example.page1) [0%nat] ["name"])).
Proof.
  apply (proj2 (proj2 (proj2
           (tableCells_shape Example.noFloat Example.events
              (main.heap Example.page1) [0%nat] ["name"])))).
  discriminate.
Defined.

(** ** Pages and continuation tokens *)
Section Pages.
Import aws.

Lemma convertPage_parallel (out : PageOutput) (i : nat) (d raw : gmap string Native) :
  Items (convertPage out) !! i = Some d ->
  RawItems (convertPage out) !! i = Some raw ->
  exists item, po_Items out !! i = Some item
               /\ d = displayItem item /\ raw = rawItem item.
Proof.
  unfold convertPage. simpl. rewrite !list_lookup_fmap.
  destruct (po_Items out !! i) as [item|]; simpl; [|done].
  intros [= <-] [= <-]. by exists item.
Qed.

(** X5.  The page that [Query] or [Scan] returns holds two parallel
    lists: as many display items as raw items, at each position two maps
    with the same attribute names, and in the display item every value is
    a string. *)
Theorem page_items_parallel (c : Service)
    (tableName partitionKey partitionValue sortKey sortValue condition : string)
    (exclusiveStartKey : option (gmap string Native)) (r : QueryResult) :
  snd (Query c tableName partitionKey partitionValue sortKey sortValue condition
             exclusiveStartKey) = inr r
  \/ snd (Scan c tableName exclusiveStartKey) = inr r ->
  length (Items r) = length (RawItems r)
  /\ forall i d raw,
       Items r !! i = Some d -> RawItems r !! i = Some raw ->
       dom d = dom raw
       /\ map_Forall (fun _ v => exists text, v = NString text) d.
Proof.
  intros H.
  assert (exists out, r = convertPage out) as [out ->].
  { destruct H as [H|H]; unfold Query, Scan in H; simpl in H.
    - destruct (svc_Query c _) as [|out]; [done|]. injection H as <-. by exists out.
    - destruct (svc_Scan c _) as [|out]; [done|]. injection H as <-. by exists out. }
  split.
  - unfold convertPage. simpl. by rewrite !length_map.
  - intros i d raw Hd Hraw.
    destruct (convertPage_parallel out i d raw Hd Hraw) as (item & _ & -> & ->).
    split.
    + unfold displayItem, rawItem. by rewrite !dom_fmap_L.
    + intros k v. unfold displayItem. rewrite lookup_fmap.
      destruct (item !! k); simpl; [|done]. intros [= <-]. by eexists.
Qed.

(** X6.  A page's continuation token that is absent or made of string
    members only is handed back to the service exactly as it came: the
    next [Query] and the next [Scan] send it as their exclusive start
    key. *)
Theorem string_token_sent_unchanged (c : Service) (out : PageOutput)
    (tableName partitionKey partitionValue sortKey sortValue condition : string) :
  po_LastEvaluatedKey out = None
  \/ (exists key : gmap string string,
         po_LastEvaluatedKey out = Some (AttributeValueMemberS <$> key)) ->
  fst (Query c tableName partitionKey partitionValue sortKey sortValue condition
             (LastEvaluatedKey (convertPage out)))
  = [CallQuery (buildQueryInput tableName partitionKey partitionValue sortKey
                  sortValue condition (LastEvaluatedKey (convertPage out)))]
  /\ qi_ExclusiveStartKey
       (buildQueryInput tableName partitionKey partitionValue sortKey
          sortValue condition (LastEvaluatedKey (convertPage out)))
     = po_LastEvaluatedKey out
  /\ fst (Scan c tableName (LastEvaluatedKey (convertPage out)))
     = [CallScan {| si_TableName := tableName; si_Limit := 15;
                    si_ExclusiveStartKey := po_LastEvaluatedKey out |}].
Proof.
  intros H.
  assert (Hkey : option_map encodeExclusiveStartKey (LastEvaluatedKey (convertPage out))
                 = po_LastEvaluatedKey out).
  { unfold convertPage, convertLastEvaluatedKey. simpl.
    destruct H as [->|[key ->]]; simpl; [done|].
    by rewrite token_round_trip_strings. }
  split_and!.
  - reflexivity.
  - unfold buildQueryInput. simpl. exact Hkey.
  - unfold Scan. cbn [fst]. by rewrite Hkey.
Qed.

Lemma string_token_sent_unchanged_witness :
  fst (Query Example.feed "events" "id" "u1" "" "" ""
         (LastEvaluatedKey (convertPage
            {| po_Items := []; po_LastEvaluatedKey := Some (Example.token "1") |})))
  = [CallQuery (buildQueryInput "events" "id" "u1" "" "" ""
       (LastEvaluatedKey (convertPage
          {| po_Items := []; po_LastEvaluatedKey := Some (Example.token "1") |})))]
  /\ qi_ExclusiveStartKey
       (buildQueryInput "events" "id" "u1" "" "" ""
          (LastEvaluatedKey (convertPage
             {| po_Items := []; po_LastEvaluatedKey := Some (Example.token "1") |})))
     = Some (Example.token "1")
  /\ fst (Scan Example.feed "events"
            (LastEvaluatedKey (convertPage
               {| po_Items := []; po_LastEvaluatedKey := Some (Example.token "1") |})))
     = [CallScan {| si_TableName := "events"; si_Limit := 15;
                    si_ExclusiveStartKey := Some (Example.token "1") |}].
Proof.
  apply (string_token_sent_unchanged Example.feed
           {| po_Items := []; po_LastEvaluatedKey := Some (Example.token "1") |}
           "events" "id" "u1" "" "" "").
  right. exists {["id" := "u1"; "ts" := "1"]}. vm_compute. reflexivity.
Defined.

(** X7.  The start-key loop and the value codec undo each other on the
    values the loop knows: a start key of strings and int64 values, once
    encoded, is read back by [attributeValueToInterface] as the same key.
    Whatever the key, the loop adds no attribute, and an attribute of any
    other dynamic type (a float64, a bool, nil, a list, a map) is left out
    of the request without an error. *)
Theorem start_key_round_trip (key : gmap string Native) :
  dom (encodeExclusiveStartKey key) ⊆ dom key
  /\ (forall name v, key !! name = Some v ->
                     is_Some (encodeExclusiveStartKey key !! name)
                     <-> stringOrInt v = true)
  /\ (map_Forall (fun _ v => restorable v) key ->
      rawItem (encodeExclusiveStartKey key) = key).
Proof.
  split_and!.
  - intros name. rewrite !elem_of_dom. unfold encodeExclusiveStartKey.
    rewrite lookup_omap. destruct (key !! name); [eauto | by intros [? ?]].
  - intros name v Hv. unfold encodeExclusiveStartKey. rewrite lookup_omap, Hv.
    destruct v; simpl; split; (done || eauto || by intros [? ?]).
  - intros Hall. apply map_eq. intros name.
    unfold rawItem, encodeExclusiveStartKey. rewrite lookup_fmap, lookup_omap.
    destruct (key !! name) as [v|] eqn:Hv; [|done].
    specialize (Hall name v Hv). destruct v; simpl in *; try done.
    by rewrite ParseInt_FormatInt.
Qed.

Lemma start_key_round_trip_witness :
  rawItem (encodeExclusiveStartKey {["id" := NString "u1"; "seq" := NInt64 42]})
  = {["id" := NString "u1"; "seq" := NInt64 42]}.
Proof.
  apply (proj2 (proj2 (start_key_round_trip
                         {["id" := NString "u1"; "seq" := NInt64 42]}))).
  apply map_Forall_insert_2; [exact I|].
  apply map_Forall_singleton. simpl. lia.
Defined.

End Pages.

Lemma page_items_parallel_witness :
  length (aws.Items (aws.convertPage {| aws.po_Items := [Example.record "1"];
                                        aws.po_LastEvaluatedKey := None |}))
  = length (aws.RawItems (aws.convertPage {| aws.po_Items := [Example.record "1"];
                                             aws.po_LastEvaluatedKey := None |}))
  /\ forall i d raw,
       aws.Items (aws.convertPage {| aws.po_Items := [Example.record "1"];
                                     aws.po_LastEvaluatedKey := None |}) !! i = Some d ->
       aws.RawItems (aws.convertPage {| aws.po_Items := [Example.record "1"];
                                        aws.po_LastEvaluatedKey := None |}) !! i = Some raw ->
       dom d = dom raw
       /\ map_Forall (fun _ v => exists text, v = NString text) d.
Proof.
  apply (page_items_parallel
           {| aws.svc_ListTables := inr [];
              aws.svc_DescribeTable := fun _ => inl (aws.SdkError "");
              aws.svc_Query := fun _ => inl (aws.SdkError "");
              aws.svc_Scan := fun _ => inr {| aws.po_Items := [Example.record "1"];
                                              aws.po_LastEvaluatedKey := None |} |}
           "events" "id" "u1" "" "" "" None).
  right. reflexivity.
Defined.

(** ** Table metadata and key conditions *)
Section Metadata.
Import aws.

Local Ltac triple_eq :=
  match goal with
  | |- (?a, ?b, ?c) = (?a', ?b', ?c') =>
      let Ha := fresh in let Hb := fresh in let Hc := fresh in
      assert (a = a') as Ha;
      [| assert (b = b') as Hb;
         [| assert (c = c') as Hc; [| congruence]]]
  end.

Lemma namesOfType_cons (keyType : string) (ks : KeySchemaElement)
    (schema : list KeySchemaElement) :
  namesOfType keyType (ks :: schema)
  = match (if String.eqb (KeyType ks) keyType then AttributeName ks else None) with
    | Some name => name :: namesOfType keyType schema
    | None => namesOfType keyType schema
    end.
Proof. reflexivity. Qed.

Lemma keySchema_fold (schema : list KeySchemaElement) (fields : gset string)
    (partitionKey sortKey : string) :
  fold_left keySchemaStep schema (fields, partitionKey, sortKey)
  = (list_to_set (omap AttributeName schema) ∪ fields,
     default partitionKey (last (namesOfType "HASH" schema)),
     default sortKey (last (namesOfType "RANGE" schema))).
Proof.
  revert fields partitionKey sortKey.
  induction schema as [|ks schema IH]; intros fields partitionKey sortKey.
  - simpl. by rewrite (left_id_L ∅ (∪)).
  - cbn [fold_left]. unfold keySchemaStep at 2.
    rewrite !namesOfType_cons. cbn [omap list_omap]. fold (omap AttributeName schema).
    destruct (AttributeName ks) as [name|] eqn:Hname.
    + assert (Hset : list_to_set (omap AttributeName schema) ∪ ({[name]} ∪ fields)
                     = list_to_set (name :: omap AttributeName schema) ∪ fields).
      { cbn [list_to_set foldr]. apply set_eq. intros x.
        rewrite !elem_of_union. tauto. }
      destruct (String.eqb_spec (KeyType ks) "HASH") as [Hh|Hh];
        destruct (String.eqb_spec (KeyType ks) "RANGE") as [Hr|Hr];
        rewrite IH.
      * rewrite Hh in Hr. discriminate Hr.
      * rewrite (last_cons name).
        triple_eq; [exact Hset | | done].
        by destruct (last (namesOfType "HASH" schema)).
      * rewrite (last_cons name).
        triple_eq; [exact Hset | done |].
        by destruct (last (namesOfType "RANGE" schema)).
      * triple_eq; [exact Hset | done | done].
    + destruct (String.eqb (KeyType ks) "HASH"), (String.eqb (KeyType ks) "RANGE");
        by rewrite IH.
Qed.

Lemma indexKey_fold (schema : list KeySchemaElement) (fields : gset string) :
  fold_left indexKeyStep schema fields
  = list_to_set (omap AttributeName schema) ∪ fields.
Proof.
  revert fields. induction schema as [|ks schema IH]; intros fields.
  - simpl. by rewrite (left_id_L ∅ (∪)).
  - cbn [fold_left]. unfold indexKeyStep at 2. cbn [omap list_omap].
    fold (omap AttributeName schema).
    destruct (AttributeName ks) as [name|]; rewrite IH; [|done].
    cbn [list_to_set foldr]. apply set_eq. intros x.
    rewrite !elem_of_union. tauto.
Qed.

Lemma indexes_fold (indexes : list (list KeySchemaElement)) (fields : gset string) :
  fold_left (fun acc gsi => fold_left indexKeyStep gsi acc) indexes fields
  = list_to_set (omap AttributeName (concat indexes)) ∪ fields.
Proof.
  revert fields. induction indexes as [|gsi indexes IH]; intros fields.
  - simpl. by rewrite (left_id_L ∅ (∪)).
  - cbn [fold_left concat]. rewrite IH, indexKey_fold, omap_app, list_to_set_app_L.
    apply set_eq. intros x. rewrite !elem_of_union. tauto.
Qed.

Lemma last_elem_of {A} (l : list A) (x : A) : last l = Some x -> x ∈ l.
Proof.
  intros H. apply last_Some in H as [l' ->]. apply elem_of_app. right.
  by apply list_elem_of_singleton.
Qed.

Lemma namesOfType_named (keyType name : string) (schema : list KeySchemaElement) :
  name ∈ namesOfType keyType schema -> name ∈ omap AttributeName schema.
Proof.
  unfold namesOfType. rewrite !list_elem_of_omap.
  intros (ks & Hks & H). exists ks. split; [done|].
  by destruct (String.eqb (KeyType ks) keyType).
Qed.

(** X8.  [getTableInfo] on a described table: the schema fields are,
    without repetition, exactly the names of the key-schema elements of the
    table and of its secondary indexes; the partition key is the name of
    the last HASH element of the table's own schema and the sort key that
    of the last RANGE element (empty when there is none), and each of them,
    when there is one, is among the schema fields. *)
Theorem getTableInfo_schema (c : Service) (name : string) (table : TableDescription) :
  svc_DescribeTable c name = inr table ->
  exists info,
    getTableInfo c name = ([CallDescribeTable name], inr info)
    /\ Name info = name /\ ItemCount info = td_ItemCount table
    /\ NoDup (SchemaFields info)
    /\ (forall field, field ∈ SchemaFields info <->
                      exists ks, ks ∈ allKeyElements table
                                 /\ AttributeName ks = Some field)
    /\ PartitionKey info
       = default "" (last (namesOfType "HASH" (td_KeySchema table)))
    /\ SortKey info
       = default "" (last (namesOfType "RANGE" (td_KeySchema table)))
    /\ (is_Some (last (namesOfType "HASH" (td_KeySchema table))) ->
        PartitionKey info ∈ SchemaFields info)
    /\ (is_Some (last (namesOfType "RANGE" (td_KeySchema table))) ->
        SortKey info ∈ SchemaFields info).
Proof.
  intros Hdesc. unfold getTableInfo. rewrite Hdesc, keySchema_fold, indexes_fold.
  eexists. split; [reflexivity|]. cbn [Name ItemCount SchemaFields PartitionKey SortKey].
  assert (Hfield : forall field,
             field ∈ elements (list_to_set (omap AttributeName
                                 (concat (td_GlobalSecondaryIndexes table)))
                               ∪ (list_to_set (omap AttributeName (td_KeySchema table))
                                  ∪ (∅ : gset string)))
             <-> exists ks, ks ∈ allKeyElements table /\ AttributeName ks = Some field).
  { intros field. rewrite elem_of_elements, !elem_of_union, !elem_of_list_to_set.
    rewrite !list_elem_of_omap. unfold allKeyElements. setoid_rewrite elem_of_app.
    split.
    - intros [(ks & ? & ?) | [(ks & ? & ?) | H]];
        [eauto | eauto | by apply elem_of_empty in H].
    - intros (ks & [H|H] & ?); eauto. }
  split_and!; try done.
  - apply NoDup_elements.
  - intros [n Hn]. rewrite Hn. simpl.
    apply last_elem_of, namesOfType_named, list_elem_of_omap in Hn as (ks & Hks & Hname).
    apply Hfield. exists ks. split; [|done]. apply elem_of_app. by left.
  - intros [n Hn]. rewrite Hn. simpl.
    apply last_elem_of, namesOfType_named, list_elem_of_omap in Hn as (ks & Hks & Hname).
    apply Hfield. exists ks. split; [|done]. apply elem_of_app. by left.
Qed.

(** X9.  For the operators [=], [begins_with], [<], [<=], [>] and [>=],
    and whenever no sort-key value is given, the request that [Query]
    builds is well formed: the placeholders that occur in the key condition
    are exactly the names and values that the request binds.  The partition
    key is always bound, and the page size is always 15. *)
Theorem key_condition_well_formed
    (tableName partitionKey partitionValue sortKey sortValue condition : string)
    (exclusiveStartKey : option (gmap string Native)) :
  sortKey = "" \/ sortValue = ""
  \/ condition ∈ ["="; "begins_with"; "<"; "<="; ">"; ">="] ->
  let input := buildQueryInput tableName partitionKey partitionValue
                 sortKey sortValue condition exclusiveStartKey in
  (forall ph, ph ∈ placeholders (qi_KeyConditionExpression input)
              <-> ph ∈ dom (qi_ExpressionAttributeNames input)
                  \/ ph ∈ dom (qi_ExpressionAttributeValues input))
  /\ qi_ExpressionAttributeNames input !! "#pk" = Some partitionKey
  /\ qi_ExpressionAttributeValues input !! ":pk"
     = Some (AttributeValueMemberS partitionValue)
  /\ qi_Limit input = 15.
Proof.
  intros Hcase. cbv zeta. unfold buildQueryInput. cbn [qi_KeyConditionExpression
    qi_ExpressionAttributeNames qi_ExpressionAttributeValues qi_Limit].
  destruct (String.eqb_spec sortKey "") as [Hk|Hk];
    [|destruct (String.eqb_spec sortValue "") as [Hv|Hv]]; cbn [negb andb].
  - split_and!; try done; [|apply lookup_singleton_eq..].
    intros ph. rewrite !dom_singleton_L, !elem_of_singleton.
    change (placeholders "#pk = :pk") with ["#pk"; ":pk"].
    rewrite !elem_of_cons, elem_of_nil. tauto.
  - split_and!; try done; [|apply lookup_singleton_eq..].
    intros ph. rewrite !dom_singleton_L, !elem_of_singleton.
    change (placeholders "#pk = :pk") with ["#pk"; ":pk"].
    rewrite !elem_of_cons, elem_of_nil. tauto.
  - destruct Hcase as [?|[?|Hcond]]; [done | done |].
    split_and!; try done;
      [|by rewrite lookup_insert_ne, lookup_singleton_eq..].
    intros ph. rewrite !dom_insert_L, !dom_singleton_L, !elem_of_union, !elem_of_singleton.
    repeat (apply elem_of_cons in Hcond as [->|Hcond]);
      [..|by apply elem_of_nil in Hcond];
      vm_compute (placeholders _);
      rewrite !elem_of_cons, elem_of_nil; tauto.
Qed.

End Metadata.

Lemma getTableInfo_schema_witness :
  exists info,
    aws.getTableInfo Example.catalogue "small" = ([aws.CallDescribeTable "small"], inr info)
    /\ aws.Name info = "small" /\ aws.ItemCount info = aws.td_ItemCount (Example.description 3)
    /\ NoDup (aws.SchemaFields info)
    /\ (forall field, field ∈ aws.SchemaFields info <->
                      exists ks, ks ∈ allKeyElements (Example.description 3)
                                 /\ aws.AttributeName ks = Some field)
    /\ aws.PartitionKey info
       = default "" (last (namesOfType "HASH" (aws.td_KeySchema (Example.description 3))))
    /\ aws.SortKey info
       = default "" (last (namesOfType "RANGE" (aws.td_KeySchema (Example.description 3))))
    /\ (is_Some (last (namesOfType "HASH" (aws.td_KeySchema (Example.description 3)))) ->
        aws.PartitionKey info ∈ aws.SchemaFields info)
    /\ (is_Some (last (namesOfType "RANGE" (aws.td_KeySchema (Example.description 3)))) ->
        aws.SortKey info ∈ aws.SchemaFields info).
Proof.
  apply (getTableInfo_schema Example.catalogue "small" (Example.description 3)).
  reflexivity.
Defined.

Lemma key_condition_well_formed_witness :
  let input := aws.buildQueryInput "events" "id" "u1" "ts" "2024" "begins_with" None in
  (forall ph, ph ∈ placeholders (aws.qi_KeyConditionExpression input)
              <-> ph ∈ dom (aws.qi_ExpressionAttributeNames input)
                  \/ ph ∈ dom (aws.qi_ExpressionAttributeValues input))
  /\ aws.qi_ExpressionAttributeNames input !! "#pk" = Some "id"
  /\ aws.qi_ExpressionAttributeValues input !! ":pk" = Some (AttributeValueMemberS "u1")
  /\ aws.qi_Limit input = 15.
Proof.
  apply (key_condition_well_formed "events" "id" "u1" "ts" "2024" "begins_with" None).
  right. right. apply elem_of_cons. right. apply elem_of_cons. by left.
Defined.

(** ** Paging, continued *)
Section Navigation.
Import aws main.
Variable formatFloat : spec_float -> string.
Variable client : Service.
Variable tableInfo : TableInfo.
Variable action : Action.

Local Abbreviation next := (main.next formatFloat client tableInfo action).
Local Abbreviation previous := (main.previous formatFloat tableInfo action).
Local Abbreviation fetch := (fetchPage client tableInfo action).
Local Abbreviation cells := (tableCells formatFloat tableInfo).
Local Abbreviation Inv := (PagingInv formatFloat client tableInfo action).
Local Abbreviation View := (ViewInv client tableInfo action).
Local Abbreviation Reached := (Paged formatFloat client tableInfo action).

Lemma fetch_parallel (token : option (gmap string Native)) (r : QueryResult) :
  snd (fetch token) = inr r -> length (RawItems r) = length (Items r).
Proof.
  unfold fetchPage, Query, Scan. destruct action; simpl.
  - destruct (svc_Query _ _); [done|]. intros [= <-]. simpl. by rewrite !length_map.
  - destruct (svc_Scan _ _); [done|]. intros [= <-]. simpl. by rewrite !length_map.
Qed.

Lemma fetch_requests (token : option (gmap string Native)) :
  Forall (pageRequest tableInfo action) (fst (fetch token)).
Proof.
  unfold fetchPage, Query, Scan, pageRequest. destruct action; simpl.
  - constructor; [|constructor]. unfold buildQueryInput. simpl.
    destruct (negb (sortKey =? "")%string && negb (sortValue =? "")%string);
      split_and!; try done;
      by rewrite ?lookup_insert_ne, lookup_singleton_eq.
  - constructor; [|constructor]. done.
Qed.

Lemma View_submit (v : ResultsView) :
  snd (submit formatFloat client tableInfo action) = inr v -> View v.
Proof.
  pose proof (fetch_parallel None) as Hpar.
  pose proof (fetch_requests None) as Hreq.
  pose proof (fetch_one_call client tableInfo action None) as Hone.
  unfold submit.
  destruct (fetch None) as [calls [err|first]] eqn:Hfetch; simpl in *; [done|].
  intros [= <-]. split; simpl.
  - reflexivity.
  - exists first. by rewrite Hfetch.
  - constructor; [|constructor]. unfold rawItemsKept. simpl.
    destruct action; [done|]. rewrite length_seq. by apply Hpar.
  - intros _. rewrite length_seq. by apply Hpar.
  - exact Hreq.
  - lia.
Qed.

Lemma View_next (v : ResultsView) : View v -> View (next v).
Proof.
  intros HV.
  destruct (ref_LastEvaluatedKey (result v)) as [key|] eqn:Hkey;
    [|by rewrite (next_at_end formatFloat client tableInfo action)].
  pose proof (fetch_parallel (Some key)) as Hpar.
  pose proof (fetch_requests (Some key)) as Hreq.
  pose proof (fetch_one_call client tableInfo action (Some key)) as Hone.
  destruct HV as [Hhead Hfields Hhist Hraw Hsent Hcount].
  destruct (snd (fetch (Some key))) as [err|r] eqn:Hr.
  { rewrite (next_failed formatFloat client tableInfo action v key err Hkey Hr).
    split; simpl; try done.
    - by apply Forall_app.
    - rewrite length_app. lia. }
  rewrite (next_fetched formatFloat client tableInfo action v key r Hkey Hr).
  cbv zeta. split; simpl.
  - reflexivity.
  - done.
  - destruct (length (pageHistory v) <? S (currentPage v))%nat; [|done].
    apply Forall_app. split; [done|]. constructor; [|done].
    unfold rawItemsKept. simpl. destruct action; [done|].
    rewrite length_seq. by apply Hpar.
  - intros _. rewrite length_seq. by apply Hpar.
  - by apply Forall_app.
  - rewrite length_app. lia.
Qed.

Lemma View_previous (v v' : ResultsView) :
  Inv v -> View v -> previous v = Some v' -> View v'.
Proof.
  intros HI HV Hprev.
  destruct (decide (1 < currentPage v)%nat) as [Hlt|Hge].
  - destruct (inv_page _ _ _ _ _ HI) as [_ Hle].
    destruct (lookup_lt_is_Some_2 (pageHistory v) (currentPage v - 2)%nat)
      as [p Hp]; [lia|].
    rewrite (previous_back formatFloat tableInfo action v p Hlt Hp) in Hprev.
    injection Hprev as <-.
    destruct HV as [Hhead Hfields Hhist Hraw Hsent Hcount].
    split; simpl; try done.
    + intros Hscan. rewrite Forall_forall in Hhist.
      pose proof (Hhist p (list_elem_of_lookup_2 _ _ _ Hp)) as Hkept.
      unfold rawItemsKept in Hkept. by rewrite Hscan in Hkept.
    + lia.
  - rewrite (previous_at_first formatFloat tableInfo action) in Hprev by lia.
    by injection Hprev as <-.
Qed.

Lemma Paged_View (v : ResultsView) : Reached v -> View v.
Proof.
  induction 1 as [v H | v _ IH | v v' Hv IH Hprev].
  - by apply View_submit.
  - by apply View_next.
  - eapply View_previous; [|exact IH|exact Hprev].
    by apply (Paged_Inv formatFloat client tableInfo action).
Qed.

(** X10.  Ctrl+B never runs out of the page history.  In every view
    reached from a submitted form by Ctrl+N and Ctrl+B, the page index
    lies within the history; Ctrl+B then succeeds, lands on the page
    before (or stays on page 1, where it changes nothing at all), shows
    the items, token and table of that history page, and neither sends a
    request nor touches the history or the item maps. *)
Theorem previous_never_panics (v : ResultsView) :
  Reached v ->
  (1 <= currentPage v <= length (pageHistory v))%nat
  /\ exists v' p,
       previous v = Some v'
       /\ currentPage v' = Nat.max 1 (currentPage v - 1)
       /\ pageHistory v !! (currentPage v' - 1)%nat = Some p
       /\ shownItems v' = map (deref (heap v)) (items p)
       /\ ref_LastEvaluatedKey (result v') = lastEvaluatedKey p
       /\ resultsTable v' = cells (heap v) (items p) (additionalFields v)
       /\ pageHeader v' = headerText tableInfo action (currentPage v')
       /\ heap v' = heap v /\ sent v' = sent v /\ pageHistory v' = pageHistory v
       /\ (currentPage v = 1%nat -> v' = v).
Proof.
  intros Hreach.
  pose proof (Paged_Inv formatFloat client tableInfo action v Hreach) as HI.
  pose proof (Paged_View v Hreach) as HV.
  destruct (inv_page _ _ _ _ _ HI) as [Hge Hle]. split; [done|].
  destruct (decide (1 < currentPage v)%nat) as [Hlt|Hone].
  - destruct (lookup_lt_is_Some_2 (pageHistory v) (currentPage v - 2)%nat)
      as [p Hp]; [lia|].
    eexists _, p. split; [exact (previous_back formatFloat tableInfo action v p Hlt Hp)|].
    simpl. replace (Nat.max 1 (currentPage v - 1)) with (currentPage v - 1)%nat by lia.
    replace (currentPage v - 1 - 1)%nat with (currentPage v - 2)%nat by lia.
    split_and!; try done. lia.
  - assert (Hcur : currentPage v = 1%nat) by lia.
    destruct (inv_current _ _ _ _ _ HI) as (p & Hp & Hshown & Hkey).
    exists v, p.
    split; [apply (previous_at_first formatFloat tableInfo action); lia|].
    rewrite Hcur in *. simpl.
    split_and!; try done.
    + rewrite (inv_table _ _ _ _ _ HI).
      apply (tableCells_ext formatFloat tableInfo). exact Hshown.
    + rewrite (view_header _ _ _ _ HV). by rewrite Hcur.
Qed.

(** X11.  A failed fetch on Ctrl+N is swallowed: when the service
    answers the continuation token with an error, the view stays exactly
    as it was, however often the key is pressed (same page, same items,
    same table and header, same history), and each press has sent the
    same request once more. *)
Theorem failed_next_is_silent (v : ResultsView) (key : gmap string Native)
    (err : error) (n : nat) :
  ref_LastEvaluatedKey (result v) = Some key ->
  snd (fetch (Some key)) = inl err ->
  let w := Nat.iter n next v in
  heap w = heap v /\ result w = result v /\ currentPage w = currentPage v
  /\ pageHistory w = pageHistory v /\ additionalFields w = additionalFields v
  /\ resultsTable w = resultsTable v /\ pageHeader w = pageHeader v
  /\ exists call, fst (fetch (Some key)) = [call]
                  /\ sent w = (sent v ++ replicate n call)%list.
Proof.
  intros Hkey Herr. cbv zeta.
  pose proof (fetch_one_call client tableInfo action (Some key)) as Hone.
  destruct (fst (fetch (Some key))) as [|call [|? ?]] eqn:Hcalls; try done.
  induction n as [|n IH].
  - simpl. split_and!; try done. exists call. by rewrite app_nil_r.
  - destruct IH as (Hh & Hres & Hcur & Hhist & Hf & Htab & Hhead & call' & [= <-] & Hsent).
    change (Nat.iter (S n) next v) with (next (Nat.iter n next v)).
    set (w := Nat.iter n next v) in *.
    assert (Hw : ref_LastEvaluatedKey (result w) = Some key) by (by rewrite Hres).
    rewrite (next_failed formatFloat client tableInfo action w key err Hw Herr).
    simpl. split_and!; try done.
    exists call. split; [done|].
    by rewrite Hsent, Hcalls, replicate_cons_app, app_assoc.
Qed.

(** X12.  The preview columns and the header line are fixed for the life
    of a view: in every view reached by paging, the additional columns
    are still the ones detected on the first item of the first page (at
    most two), the first table row is the header row built from them, and
    the page header names the page index. *)
Theorem preview_columns_fixed (v : ResultsView) :
  Reached v ->
  exists first,
    snd (fetch None) = inr first
    /\ additionalFields v = detectAdditionalFields (Items first) tableInfo
    /\ (length (additionalFields v) <= 2)%nat
    /\ head (resultsTable v) = Some (headers tableInfo (additionalFields v))
    /\ pageHeader v = headerText tableInfo action (currentPage v).
Proof.
  intros Hreach.
  pose proof (Paged_Inv formatFloat client tableInfo action v Hreach) as HI.
  destruct (Paged_View v Hreach) as [Hhead (first & Hfirst & Hfields) _ _ _ _].
  exists first. split_and!; try done.
  - rewrite Hfields. unfold detectAdditionalFields.
    destruct (Items first) as [|firstItem others]; [simpl; lia|].
    rewrite detectLoop_take by (simpl; lia).
    rewrite length_app, length_take. cbn [length]. lia.
  - by rewrite (inv_table _ _ _ _ _ HI).
Qed.

(** X13.  A results view only ever talks to its own table: every request
    sent by a view reached by paging is a page request (a Scan, or a Query
    on the view's partition-key value) for the table of the view with a
    page size of 15, and showing page [n] has taken at least [n]
    requests. *)
Theorem view_sends_page_requests_only (v : ResultsView) :
  Reached v ->
  Forall (pageRequest tableInfo action) (sent v)
  /\ (currentPage v <= length (sent v))%nat.
Proof.
  intros Hreach. destruct (Paged_View v Hreach). by split.
Qed.

End Navigation.

Lemma previous_never_panics_witness :
  (1 <= main.currentPage Example.page2 <= length (main.pageHistory Example.page2))%nat
  /\ exists v' p,
       main.previous Example.noFloat Example.events main.ScanAction Example.page2 = Some v'
       /\ main.currentPage v' = Nat.max 1 (main.currentPage Example.page2 - 1)
       /\ main.pageHistory Example.page2 !! (main.currentPage v' - 1)%nat = Some p
       /\ shownItems v' = map (main.deref (main.heap Example.page2)) (main.items p)
       /\ main.ref_LastEvaluatedKey (main.result v') = main.lastEvaluatedKey p
       /\ main.resultsTable v'
          = main.tableCells Example.noFloat Example.events (main.heap Example.page2)
              (main.items p) (main.additionalFields Example.page2)
       /\ main.pageHeader v'
          = main.headerText Example.events main.ScanAction (main.currentPage v')
       /\ main.heap v' = main.heap Example.page2
       /\ main.sent v' = main.sent Example.page2
       /\ main.pageHistory v' = main.pageHistory Example.page2
       /\ (main.currentPage Example.page2 = 1%nat -> v' = Example.page2).
Proof.
  apply (previous_never_panics Example.noFloat Example.feed Example.events
           main.ScanAction Example.page2).
  apply Paged_next, Paged_submit. reflexivity.
Defined.

(** The first page of the feed was shown; then the service fails. *)
Lemma failed_next_is_silent_witness :
  let press := main.next Example.noFloat Example.catalogue Example.events main.ScanAction in
  let w := Nat.iter 2 press Example.page1 in
  main.heap w = main.heap Example.page1
  /\ main.result w = main.result Example.page1
  /\ main.currentPage w = main.currentPage Example.page1
  /\ main.pageHistory w = main.pageHistory Example.page1
  /\ main.additionalFields w = main.additionalFields Example.page1
  /\ main.resultsTable w = main.resultsTable Example.page1
  /\ main.pageHeader w = main.pageHeader Example.page1
  /\ exists call,
       fst (main.fetchPage Example.catalogue Example.events main.ScanAction
              (Some (aws.displayItem (Example.token "1")))) = [call]
       /\ main.sent w = (main.sent Example.page1 ++ replicate 2 call)%list.
Proof.
  apply (failed_next_is_silent Example.noFloat Example.catalogue Example.events
           main.ScanAction Example.page1 (aws.displayItem (Example.token "1"))
           (aws.SdkError "no data") 2).
  - vm_compute. reflexivity.
  - reflexivity.
Defined.

Lemma preview_columns_fixed_witness :
  exists first,
    snd (main.fetchPage Example.feed Example.events main.ScanAction None) = inr first
    /\ main.additionalFields Example.page3
       = main.detectAdditionalFields (aws.Items first) Example.events
    /\ (length (main.additionalFields Example.page3) <= 2)%nat
    /\ head (main.resultsTable Example.page3)
       = Some (main.headers Example.events (main.additionalFields Example.page3))
    /\ main.pageHeader Example.page3
       = main.headerText Example.events main.ScanAction (main.currentPage Example.page3).
Proof.
  apply (preview_columns_fixed Example.noFloat Example.feed Example.events
           main.ScanAction Example.page3).
  apply Paged_next, Paged_next, Paged_submit. reflexivity.
Defined.

Lemma view_sends_page_requests_only_witness :
  Forall (pageRequest Example.events Sample.byUser) (main.sent Sample.queried2)
  /\ (main.currentPage Sample.queried2 <= length (main.sent Sample.queried2))%nat.
Proof.
  apply (view_sends_page_requests_only Example.noFloat Example.feed Example.events
           Sample.byUser Sample.queried2).
  apply Paged_next, Paged_submit. reflexivity.
Defined.

(** ** Enter on a row of the results *)
Section Enter.
Import aws main.
Variable formatFloat : spec_float -> string.
Variable client : Service.
Variable tableInfo : TableInfo.

(** X14.  In the query view, Enter panics after Ctrl+B.  The page state
    of the query view stores no raw items, so the result that Ctrl+B
    restores has none: on every item row of the restored page the index
    into [result.RawItems] is out of range. *)
Theorem query_view_enter_after_back_panics
    (pkValue sortKey sortValue cond : string) (v : ResultsView) :
  Paged formatFloat client tableInfo (QueryAction pkValue sortKey sortValue cond) v ->
  (1 < currentPage v)%nat ->
  exists v' p,
    previous formatFloat tableInfo (QueryAction pkValue sortKey sortValue cond) v = Some v'
    /\ pageHistory v !! (currentPage v - 2)%nat = Some p
    /\ ref_Items (result v') = items p
    /\ ref_RawItems (result v') = []
    /\ forall row, (0 < row <= length (items p))%nat ->
                   openItem formatFloat tableInfo v' row = None.
Proof.
  intros Hreach Hlt.
  pose proof (Paged_Inv _ _ _ _ v Hreach) as HI.
  pose proof (Paged_View _ _ _ _ v Hreach) as HV.
  destruct (inv_page _ _ _ _ _ HI) as [_ Hle].
  destruct (lookup_lt_is_Some_2 (pageHistory v) (currentPage v - 2)%nat)
    as [p Hp]; [lia|].
  assert (Hraw : rawItems p = []).
  { pose proof (view_history_raw _ _ _ _ HV) as Hhist.
    rewrite Forall_forall in Hhist.
    exact (Hhist p (list_elem_of_lookup_2 _ _ _ Hp)). }
  eexists _, p. split; [exact (previous_back _ _ _ v p Hlt Hp)|].
  simpl. split_and!; try done.
  intros row Hrow. apply openItem_without_raw; simpl; [done|].
  by rewrite Hraw.
Qed.

(** X15.  In the scan view, Enter never panics.  In every view reached by
    paging, the current result holds one raw item per item, whether the
    page was fetched or restored from the history: Enter opens an item
    view exactly on the item rows, does nothing on any other row, and in
    both cases leaves the result, the history, the table and the requests
    sent as they were. *)
Theorem scan_view_enter_never_panics (v : ResultsView) (row : nat) :
  Paged formatFloat client tableInfo ScanAction v ->
  exists v' view,
    openItem formatFloat tableInfo v row = Some (v', view)
    /\ (is_Some view <-> (0 < row <= length (ref_Items (result v)))%nat)
    /\ (forall iv, view = Some iv ->
                   ref_RawItems (result v) !! (row - 1)%nat = Some (iv_rawItem iv))
    /\ result v' = result v /\ pageHistory v' = pageHistory v
    /\ currentPage v' = currentPage v /\ resultsTable v' = resultsTable v
    /\ sent v' = sent v /\ length (heap v') = length (heap v).
Proof.
  intros Hreach.
  pose proof (Paged_View _ _ _ _ v Hreach) as HV.
  pose proof (view_result_raw _ _ _ _ HV eq_refl) as Hpar.
  unfold openItem.
  destruct ((0 <? row) && (row <=? length (ref_Items (result v))))%nat eqn:Hrow.
  - apply andb_true_iff in Hrow as [H0 Hlen].
    apply Nat.ltb_lt in H0. apply Nat.leb_le in Hlen.
    destruct (lookup_lt_is_Some_2 (ref_Items (result v)) (row - 1)%nat)
      as [l Hl]; [lia|].
    destruct (lookup_lt_is_Some_2 (ref_RawItems (result v)) (row - 1)%nat)
      as [raw Hraw]; [rewrite Hpar; lia|].
    rewrite Hl, Hraw.
    destruct (fold_left _ _ _) as [item rows].
    eexists _, _. split; [reflexivity|]. simpl. split_and!; try done.
    + intros iv [= Hiv]. by subst iv.
    + by rewrite length_insert.
  - eexists _, _. split; [reflexivity|]. split_and!; try done.
    split; [by intros [? [=]]|].
    intros [H0 Hlen].
    apply andb_false_iff in Hrow as [H|H];
      [apply Nat.ltb_ge in H | apply Nat.leb_gt in H]; lia.
Qed.

End Enter.

Lemma query_view_enter_after_back_panics_witness :
  exists v' p,
    main.previous Example.noFloat Example.events Sample.byUser Sample.queried2 = Some v'
    /\ main.pageHistory Sample.queried2 !! (main.currentPage Sample.queried2 - 2)%nat
       = Some p
    /\ main.ref_Items (main.result v') = main.items p
    /\ main.ref_RawItems (main.result v') = []
    /\ forall row, (0 < row <= length (main.items p))%nat ->
                   main.openItem Example.noFloat Example.events v' row = None.
Proof.
  apply (query_view_enter_after_back_panics Example.noFloat Example.feed Example.events
           "u1" "" "" "" Sample.queried2).
  - apply Paged_next, Paged_submit. reflexivity.
  - vm_compute. lia.
Defined.

Lemma scan_view_enter_never_panics_witness :
  exists v' view,
    main.openItem Example.noFloat Example.events (Example.ctrlB Example.page2) 1
    = Some (v', view)
    /\ (is_Some view
        <-> (0 < 1 <= length (main.ref_Items (main.result (Example.ctrlB Example.page2))))%nat)
    /\ (forall iv, view = Some iv ->
          main.ref_RawItems (main.result (Example.ctrlB Example.page2)) !! (1 - 1)%nat
          = Some (main.iv_rawItem iv))
    /\ main.result v' = main.result (Example.ctrlB Example.page2)
    /\ main.pageHistory v' = main.pageHistory (Example.ctrlB Example.page2)
    /\ main.currentPage v' = main.currentPage (Example.ctrlB Example.page2)
    /\ main.resultsTable v' = main.resultsTable (Example.ctrlB Example.page2)
    /\ main.sent v' = main.sent (Example.ctrlB Example.page2)
    /\ length (main.heap v') = length (main.heap (Example.ctrlB Example.page2)).
Proof.
  apply (scan_view_enter_never_panics Example.noFloat Example.feed Example.events
           (Example.ctrlB Example.page2) 1).
  eapply Paged_previous; [apply Paged_next, Paged_submit; reflexivity|].
  reflexivity.
Defined.

(** ** The rows of the item view *)
Section ItemRows.
Import aws main.
Variable formatFloat : spec_float -> string.
Variable tableInfo : TableInfo.

Local Abbreviation step := (schemaStep formatFloat).
Local Abbreviation rowsOf := (otherRows formatFloat).

Lemma fst_rowsOf (item : gmap string Native) :
  (rowsOf item).*1 = (map_to_list item).*1.
Proof.
  unfold otherRows. generalize (map_to_list item). intros l.
  induction l as [|kv l IH]; [done|]. simpl. f_equal. exact IH.
Qed.

(** One round of the schema loop moves a row from the item to the table. *)
Lemma schemaStep_perm (item : gmap string Native) (rows : list (string * string))
    (sf : string) :
  (snd (step (item, rows) sf) ++ rowsOf (fst (step (item, rows) sf)))%list
  ≡ₚ (rows ++ rowsOf item)%list.
Proof.
  unfold schemaStep. destruct (item !! sf) as [x|] eqn:Hx; simpl; [|done].
  rewrite <- app_assoc. apply Permutation_app_head. simpl.
  unfold otherRows.
  change ((sf, fmt.Sprint formatFloat x)
            :: map (fun kv => (kv.1, fmt.Sprint formatFloat kv.2))
                   (map_to_list (delete sf item)))
    with (map (fun kv : string * Native => (kv.1, fmt.Sprint formatFloat kv.2))
              ((sf, x) :: map_to_list (delete sf item))).
  apply Permutation_map. by apply map_to_list_delete.
Qed.

Lemma schemaLoop_perm (fields : list string) (item : gmap string Native)
    (rows : list (string * string)) :
  (snd (fold_left step fields (item, rows))
     ++ rowsOf (fst (fold_left step fields (item, rows))))%list
  ≡ₚ (rows ++ rowsOf item)%list.
Proof.
  revert item rows. induction fields as [|sf fields IH]; intros item rows; [done|].
  cbn [fold_left].
  destruct (step (item, rows) sf) as [item1 rows1] eqn:Hstep.
  rewrite IH. pose proof (schemaStep_perm item rows sf) as H.
  by rewrite Hstep in H.
Qed.

(** The rows of the schema loop are rows of schema fields. *)
Lemma schemaLoop_rows (fields : list string) (item : gmap string Native)
    (rows : list (string * string)) (f : string) :
  f ∈ (snd (fold_left step fields (item, rows))).*1 -> f ∈ rows.*1 \/ f ∈ fields.
Proof.
  revert item rows. induction fields as [|sf fields IH]; intros item rows Hf;
    [by left|].
  cbn [fold_left] in Hf. unfold schemaStep at 2 in Hf.
  destruct (item !! sf) as [x|].
  - apply IH in Hf as [Hf|Hf]; [|right; by apply elem_of_cons; right].
    rewrite fmap_app, elem_of_app in Hf. destruct Hf as [Hf|Hf]; [by left|].
    right. apply list_elem_of_singleton in Hf. simpl in Hf. subst f.
    by apply elem_of_cons; left.
  - apply IH in Hf as [Hf|Hf]; [by left | right; by apply elem_of_cons; right].
Qed.

(** X16.  The item view shows every attribute of the item exactly once.
    On a row with an item and a raw item, Enter opens a view whose rows
    are, up to their order, the attributes of the display item with their
    printed values: no attribute is missing, none is shown twice; the rows
    of the schema fields come first, the others after them; and the view
    keeps the raw item of the row for the export. *)
Theorem item_view_lists_every_attribute (v : ResultsView) (row l : nat)
    (raw : gmap string Native) :
  (0 < row)%nat ->
  ref_Items (result v) !! (row - 1)%nat = Some l ->
  ref_RawItems (result v) !! (row - 1)%nat = Some raw ->
  exists v' view keys others,
    openItem formatFloat tableInfo v row = Some (v', Some view)
    /\ iv_rawItem view = raw
    /\ itemTable view
       ≡ₚ map (fun kv => (fst kv, fmt.Sprint formatFloat (snd kv)))
              (map_to_list (deref (heap v) l))
    /\ NoDup (itemTable view).*1
    /\ (forall f, f ∈ (itemTable view).*1 <-> is_Some (deref (heap v) l !! f))
    /\ itemTable view = (keys ++ others)%list
    /\ (forall f, f ∈ keys.*1 -> f ∈ SchemaFields tableInfo)
    /\ (forall f, f ∈ others.*1 -> f ∉ SchemaFields tableInfo).
Proof.
  intros Hrow Hl Hraw.
  assert (Hlen : (row <= length (ref_Items (result v)))%nat).
  { apply lookup_lt_Some in Hl. lia. }
  set (item := deref (heap v) l).
  destruct (fold_left step (SchemaFields tableInfo) (item, [])) as [item' rows] eqn:Hloop.
  pose proof (schemaLoop_perm (SchemaFields tableInfo) item []) as Hperm.
  rewrite Hloop in Hperm. simpl in Hperm.
  assert (Hfst : (rows ++ rowsOf item')%list.*1 ≡ₚ (map_to_list item).*1).
  { rewrite Hperm. by rewrite fst_rowsOf. }
  eexists _, _, rows, (rowsOf item'). split_and!.
  - unfold openItem.
    rewrite (proj2 (Nat.ltb_lt 0 row)), (proj2 (Nat.leb_le _ _)) by done.
    simpl. rewrite Hl, Hraw. fold item. rewrite Hloop. reflexivity.
  - reflexivity.
  - exact Hperm.
  - simpl. rewrite Hfst. apply NoDup_fst_map_to_list.
  - intros f. simpl. rewrite Hfst. rewrite list_elem_of_fmap. split.
    + intros ([k x] & -> & Hin). apply elem_of_map_to_list in Hin. eauto.
    + intros [x Hx]. exists (f, x). split; [done|]. by apply elem_of_map_to_list.
  - reflexivity.
  - intros f Hf.
    pose proof (schemaLoop_rows (SchemaFields tableInfo) item [] f) as H.
    rewrite Hloop in H. destruct (H Hf) as [Hnil|Hin]; [|done].
    by apply elem_of_nil in Hnil.
  - intros f Hf Hschema. rewrite fst_rowsOf in Hf.
    apply list_elem_of_fmap in Hf as ([k x] & -> & Hin).
    apply elem_of_map_to_list in Hin. simpl in Hschema.
    pose proof (schemaLoop_item formatFloat (SchemaFields tableInfo) item [] k) as H.
    rewrite Hloop in H. simpl in H. rewrite decide_True in H by done. congruence.
Qed.

End ItemRows.

Lemma item_view_lists_every_attribute_witness :
  exists v' view keys others,
    main.openItem Example.noFloat Example.events Example.page1 1 = Some (v', Some view)
    /\ main.iv_rawItem view = aws.rawItem (Example.record "1")
    /\ main.itemTable view
       ≡ₚ map (fun kv => (fst kv, fmt.Sprint Example.noFloat (snd kv)))
              (map_to_list (main.deref (main.heap Example.page1) 0))
    /\ NoDup (main.itemTable view).*1
    /\ (forall f, f ∈ (main.itemTable view).*1
                  <-> is_Some (main.deref (main.heap Example.page1) 0 !! f))
    /\ main.itemTable view = (keys ++ others)%list
    /\ (forall f, f ∈ keys.*1 -> f ∈ aws.SchemaFields Example.events)
    /\ (forall f, f ∈ others.*1 -> f ∉ aws.SchemaFields Example.events).
Proof.
  apply (item_view_lists_every_attribute Example.noFloat Example.events
           Example.page1 1 0 (aws.rawItem (Example.record "1"))).
  - lia.
  - reflexivity.
  - vm_compute. reflexivity.
Defined.

(** ** The results table after an item view *)
Section StaleCells.
Import aws main.
Variable formatFloat : spec_float -> string.
Variable client : Service.
Variable tableInfo : TableInfo.
Variable action : Action.

Local Abbreviation next := (main.next formatFloat client tableInfo action).
Local Abbreviation previous := (main.previous formatFloat tableInfo action).
Local Abbreviation fetch := (fetchPage client tableInfo action).
Local Abbreviation cells := (tableCells formatFloat tableInfo).

(** Row [row] of the table shows the item of position [row - 1]. *)
Lemma tableCells_row (h : list (gmap string Native)) (refs : list nat)
    (fields : list string) (row l : nat) :
  (0 < row)%nat -> refs !! (row - 1)%nat = Some l ->
  cells h refs fields !! row
  = Some (dataRow formatFloat tableInfo fields (deref h l)).
Proof.
  intros Hrow Hl. destruct refs as [|a refs]; [by rewrite lookup_nil in Hl|].
  unfold tableCells. rewrite lookup_cons_ne_0 by lia.
  replace (Nat.pred row) with (row - 1)%nat by lia.
  by rewrite list_lookup_fmap, Hl.
Qed.

(** X17.  Looking at an item blanks its key cells in the results table.
    Take a page whose items the display shares with the history, open the
    item of a row that has the partition key, then press Ctrl+N and
    Ctrl+B: the table is drawn again from the item map the item view has
    deleted from, and the partition-key cell of that row, which showed the
    key value before, now reads [<nil>]. *)
Theorem key_cell_lost_after_item_view (v : ResultsView) (row l : nat)
    (raw key : gmap string Native) (r : QueryResult) (x : Native) :
  Paged formatFloat client tableInfo action v ->
  SharesHistory v ->
  (0 < row)%nat ->
  ref_Items (result v) !! (row - 1)%nat = Some l ->
  ref_RawItems (result v) !! (row - 1)%nat = Some raw ->
  deref (heap v) l !! PartitionKey tableInfo = Some x ->
  PartitionKey tableInfo ∈ SchemaFields tableInfo ->
  ref_LastEvaluatedKey (result v) = Some key ->
  snd (fetch (Some key)) = inr r ->
  exists v1 view v2 before after,
    openItem formatFloat tableInfo v row = Some (v1, Some view)
    /\ previous (next v1) = Some v2
    /\ currentPage v2 = currentPage v
    /\ resultsTable v !! row = Some before
    /\ head before = Some (fmt.Sprint formatFloat x)
    /\ resultsTable v2 !! row = Some after
    /\ head after = Some "<nil>".
Proof.
  intros Hreach (p & Hp & Hitems) Hrow Hl Hraw Hx Hpk Hkey Hr.
  pose proof (Paged_Inv formatFloat client tableInfo action v Hreach) as HI.
  destruct (inv_page _ _ _ _ _ HI) as [Hge Hle].
  assert (Hlt : (l < length (heap v))%nat).
  { pose proof (inv_result_refs _ _ _ _ _ HI) as Hrefs.
    rewrite Forall_forall in Hrefs. apply Hrefs.
    by eapply list_elem_of_lookup_2. }
  assert (Hlen : (row <= length (ref_Items (result v)))%nat).
  { apply lookup_lt_Some in Hl. lia. }
  destruct (fold_left (schemaStep formatFloat) (SchemaFields tableInfo)
                      (deref (heap v) l, [])) as [item' rows] eqn:Hloop.
  assert (Hnone : item' !! PartitionKey tableInfo = None).
  { pose proof (schemaLoop_item formatFloat (SchemaFields tableInfo)
                  (deref (heap v) l) [] (PartitionKey tableInfo)) as H.
    rewrite Hloop in H. simpl in H. by rewrite decide_True in H. }
  set (v1 := {| heap := <[l := item']> (heap v); sent := sent v;
                result := result v; currentPage := currentPage v;
                pageHistory := pageHistory v;
                additionalFields := additionalFields v;
                resultsTable := resultsTable v; pageHeader := pageHeader v |}).
  assert (Hkey1 : ref_LastEvaluatedKey (result v1) = Some key) by done.
  pose proof (next_fetched formatFloat client tableInfo action v1 key r Hkey1 Hr)
    as Hnext.
  cbv zeta in Hnext.
  cbn [heap sent result currentPage pageHistory additionalFields v1] in Hnext.
  assert (Hp' : (if (length (pageHistory v) <? S (currentPage v))%nat
                 then (pageHistory v
                         ++ [recordPage action
                               {| ref_Items := seq (length (<[l := item']> (heap v)))
                                                   (length (Items r));
                                  ref_RawItems := RawItems r;
                                  ref_LastEvaluatedKey := LastEvaluatedKey r |}])%list
                 else pageHistory v) !! (S (currentPage v) - 2)%nat = Some p).
  { replace (S (currentPage v) - 2)%nat with (currentPage v - 1)%nat by lia.
    destruct (length (pageHistory v) <? S (currentPage v))%nat; [|done].
    rewrite lookup_app_l by lia. done. }
  eexists v1, _, _, _, _. split_and!.
  - unfold openItem.
    rewrite (proj2 (Nat.ltb_lt 0 row)), (proj2 (Nat.leb_le _ _)) by done.
    simpl. rewrite Hl, Hraw, Hloop. reflexivity.
  - rewrite Hnext.
    apply (previous_back formatFloat tableInfo action _ p);
      cbn [currentPage pageHistory]; [lia | exact Hp'].
  - cbn [currentPage]. lia.
  - rewrite (inv_table _ _ _ _ _ HI). by apply tableCells_row.
  - unfold dataRow. cbn [head]. unfold fmt.SprintLookup. by rewrite Hx.
  - cbn [resultsTable heap additionalFields]. apply tableCells_row; [done|].
    by rewrite Hitems.
  - unfold dataRow. cbn [head]. unfold fmt.SprintLookup.
    rewrite (deref_app (<[l := item']> (heap v)))
      by (by rewrite length_insert).
    unfold deref. rewrite list_lookup_insert_eq by done. simpl.
    by rewrite Hnone.
Qed.

End StaleCells.

Lemma key_cell_lost_after_item_view_witness :
  exists v1 view v2 before after,
    main.openItem Example.noFloat Example.events Example.page1 1 = Some (v1, Some view)
    /\ main.previous Example.noFloat Example.events main.ScanAction
         (main.next Example.noFloat Example.feed Example.events main.ScanAction v1)
       = Some v2
    /\ main.currentPage v2 = main.currentPage Example.page1
    /\ main.resultsTable Example.page1 !! 1%nat = Some before
    /\ head before = Some (fmt.Sprint Example.noFloat (NString "u1"))
    /\ main.resultsTable v2 !! 1%nat = Some after
    /\ head after = Some "<nil>".
Proof.
  eapply (key_cell_lost_after_item_view Example.noFloat Example.feed Example.events
            main.ScanAction Example.page1 1 0).
  - apply Paged_submit. reflexivity.
  - eexists. split; reflexivity.
  - lia.
  - reflexivity.
  - reflexivity.
  - reflexivity.
  - apply elem_of_cons. by left.
  - reflexivity.
  - reflexivity.
Defined.

(** ** JSON: the export and the field view *)
Section JsonValues.
Import aws main.
Variable formatFloat jsonFloat : spec_float -> string.

(** Induction on a value and on the values nested in it. *)
Lemma Native_nested_ind (P : Native -> Prop) :
  (forall s, P (NString s)) -> (forall i, P (NInt64 i)) ->
  (forall f, P (NFloat64 f)) -> (forall b, P (NBool b)) -> P NNil ->
  (forall l, Forall P l -> P (NSlice l)) ->
  (forall m, Forall (fun kv => P (snd kv)) m -> P (NMap m)) ->
  (forall l, P (NStrings l)) ->
  forall v, P v.
Proof.
  intros HS HI HF HB HN HL HM HSS. fix IH 1.
  intros [s|i|f|b| |l|m|l];
    [apply HS | apply HI | apply HF | apply HB | apply HN | | | apply HSS].
  - apply HL. induction l as [|x l IHl]; constructor; [apply IH | exact IHl].
  - apply HM. induction m as [|kv m IHm]; constructor; [apply IH | exact IHm].
Qed.

Lemma collect_inr (l : list (json.error + string)) :
  (exists xs, json.collect l = inr xs) <-> Forall (fun r => exists x, r = inr x) l.
Proof.
  induction l as [|[e|x] l IH]; simpl.
  - split; [constructor | eauto].
  - split; [by intros [? ?] | intros H; inversion H as [|? ? [? ?]]; done].
  - split.
    + intros [xs Hxs]. constructor; [eauto|]. apply IH.
      destruct (json.collect l); [done | eauto].
    + intros H. inversion H as [|? ? _ Hl]; subst.
      apply IH in Hl as [xs ->]. eauto.
Qed.

Lemma insertByKey_Forall {A} (P : string * A -> Prop) (kv : string * A)
    (l : list (string * A)) :
  Forall P (insertByKey kv l) <-> P kv /\ Forall P l.
Proof.
  induction l as [|kv' l IH]; simpl.
  - rewrite Forall_singleton, Forall_nil. tauto.
  - destruct (String.leb kv.1 kv'.1).
    + by rewrite Forall_cons.
    + rewrite !Forall_cons, IH. tauto.
Qed.

Lemma sortByKey_Forall {A} (P : string * A -> Prop) (l : list (string * A)) :
  Forall P (sortByKey l) <-> Forall P l.
Proof.
  unfold sortByKey. induction l as [|kv l IH]; simpl; [done|].
  by rewrite insertByKey_Forall, Forall_cons, IH.
Qed.

Lemma forallb_Forall {A} (f : A -> bool) (l : list A) :
  forallb f l = true <-> Forall (fun x => f x = true) l.
Proof.
  induction l as [|x l IH]; simpl.
  - split; [constructor | done].
  - by rewrite andb_true_iff, Forall_cons, IH.
Qed.

(** A value has a JSON text exactly when its numbers are finite. *)
Lemma encode_finite (v : Native) (depth : nat) :
  (exists text, json.encode jsonFloat depth v = inr text) <-> finiteNumbers v = true.
Proof.
  revert depth. induction v as [s|i|f|b| |l IH|m IH|l] using Native_nested_ind;
    intros depth; simpl; try (split; [done | eauto]).
  - destruct f; simpl; split; try done; eauto; by intros [? ?].
  - rewrite forallb_Forall.
    transitivity (exists xs, json.collect (map (json.encode jsonFloat (S depth)) l) = inr xs).
    { destruct (json.collect _); split; eauto; by intros [? ?]. }
    rewrite collect_inr, Forall_map.
    split; intros H.
    + rewrite Forall_forall in IH, H. apply Forall_forall. intros x Hx.
      apply (IH x Hx (S depth)). by apply H.
    + rewrite Forall_forall in IH, H. apply Forall_forall. intros x Hx.
      apply (IH x Hx (S depth)). by apply H.
  - rewrite forallb_Forall.
    match goal with
    | |- (exists text, match json.collect ?c with _ => _ end = _) <-> _ =>
        transitivity (exists xs, json.collect c = inr xs)
    end.
    { destruct (json.collect _); split; eauto; by intros [? ?]. }
    rewrite collect_inr, Forall_map, sortByKey_Forall, Forall_map.
    split; intros H.
    + rewrite Forall_forall in IH, H. apply Forall_forall. intros kv Hkv.
      apply (IH kv Hkv (S depth)). specialize (H kv Hkv). simpl in H.
      destruct (json.encode jsonFloat (S depth) kv.2); [by destruct H | eauto].
    + rewrite Forall_forall in IH, H. apply Forall_forall. intros kv Hkv.
      simpl. apply (IH kv Hkv (S depth)) in H; [|done]. destruct H as [text ->]. eauto.
Qed.

Lemma collect_inl (l : list (json.error + string)) (e : json.error) :
  json.collect l = inl e -> inl e ∈ l.
Proof.
  induction l as [|[e'|x] l IH]; simpl; [done | |].
  - intros [= ->]. apply elem_of_cons. by left.
  - destruct (json.collect l); [|done].
    intros [= ->]. apply elem_of_cons. right. by apply IH.
Qed.

(** The only error of the encoder is a number that JSON cannot carry. *)
Lemma encode_error (v : Native) (depth : nat) (err : json.error) :
  json.encode jsonFloat depth v = inl err ->
  exists f, err = json.UnsupportedValueError f
            /\ (f = S754_nan \/ exists sign, f = S754_infinity sign).
Proof.
  revert depth. induction v as [s|i|f|b| |l IH|m IH|l] using Native_nested_ind;
    intros depth; simpl; try done.
  - destruct f; simpl; try done; intros [= <-]; eauto.
  - destruct (json.collect _) eqn:Hc; [|done]. intros [= <-].
    apply collect_inl, list_elem_of_In, in_map_iff in Hc as (x & Hx & Hin).
    apply list_elem_of_In in Hin. rewrite Forall_forall in IH.
    by apply (IH x Hin (S depth)).
  - destruct (json.collect _) eqn:Hc; [|done]. intros [= <-].
    apply collect_inl, list_elem_of_In, in_map_iff in Hc as (kv & Hkv & Hin).
    apply list_elem_of_In in Hin.
    assert (Hall : Forall (fun kv => kv ∈ map (fun kv => (kv.1, json.encode jsonFloat (S depth) kv.2)) m)
                          (sortByKey (map (fun kv => (kv.1, json.encode jsonFloat (S depth) kv.2)) m))).
    { apply sortByKey_Forall. by apply Forall_forall. }
    rewrite Forall_forall in Hall. apply Hall in Hin.
    apply list_elem_of_In, in_map_iff in Hin as (kv0 & <- & Hin).
    apply list_elem_of_In in Hin. simpl in Hkv.
    rewrite Forall_forall in IH. apply (IH kv0 Hin (S depth)).
    by destruct (json.encode jsonFloat (S depth) kv0.2); [injection Hkv as ->|].
Qed.

(** X18.  The JSON export fails exactly on an item that holds a NaN or an
    infinity, however deep in its lists and maps; on every other item it
    hands a file name and a text to the file system.  When it fails,
    nothing is written and the error names the value.  A record with a
    number attribute whose text is [NaN] is such an item. *)
Theorem export_needs_finite_numbers (tableInfo : TableInfo)
    (rawItem : gmap string Native) :
  ((exists file, saveItemAsJSON formatFloat jsonFloat tableInfo rawItem = inr file)
   <-> map_Forall (fun _ v => finiteNumbers v = true) rawItem)
  /\ (forall err, saveItemAsJSON formatFloat jsonFloat tableInfo rawItem = inl err ->
        exists f, err = json.UnsupportedValueError f
                  /\ (f = S754_nan \/ exists sign, f = S754_infinity sign))
  /\ exists err, saveItemAsJSON formatFloat jsonFloat tableInfo (aws.rawItem notANumber)
                 = inl err.
Proof.
  split_and!.
  - unfold saveItemAsJSON, json.MarshalIndent.
    transitivity (exists text, json.encode jsonFloat 0 (NMap (map_to_list rawItem))
                               = inr text).
    { destruct (json.encode _ _ _); split; eauto; by intros [? ?]. }
    rewrite encode_finite. cbn [finiteNumbers].
    rewrite forallb_Forall, map_Forall_to_list.
    apply Forall_iff. by intros [k x].
  - unfold saveItemAsJSON, json.MarshalIndent.
    destruct (json.encode _ _ _) eqn:Henc; [|done].
    intros err [= <-]. by apply encode_error in Henc.
  - vm_compute. eauto.
Qed.

End JsonValues.

(** ** The JSON view of a field *)
Section FieldView.
Import aws main.
Variable jsonFloat : spec_float -> string.

(** X19.  Enter on a row of the item view opens the JSON view exactly for
    the attributes that DynamoDB holds as a list or as a map; a string,
    a number, a boolean, a null, a binary and the three kinds of sets open
    nothing.  The view is titled with the field name and shows the
    indented JSON text of the raw value, or the encoder's error. *)
Theorem json_view_for_lists_and_maps (view : ItemView)
    (item : gmap string AttributeValue) (row : nat) (field text : string) :
  (0 < row)%nat ->
  itemTable view !! (row - 1)%nat = Some (field, text) ->
  iv_rawItem view = rawItem item ->
  (is_Some (openJsonView jsonFloat view row)
   <-> exists av, item !! field = Some av
                  /\ ((exists l, av = AttributeValueMemberL l)
                      \/ (exists m, av = AttributeValueMemberM m)))
  /\ (forall title body,
        openJsonView jsonFloat view row = Some (title, body) ->
        title = "JSON View - " ++ field ++ " (Space: page down, ESC: close)"
        /\ exists av,
             item !! field = Some av
             /\ match json.encode jsonFloat 0 (attributeValueToInterface av) with
                | inr jsonBytes => body = jsonBytes
                | inl err => body = "Error formatting JSON: " ++ json.errorText err
                end).
Proof.
  intros Hrow Hcell Hraw. unfold openJsonView.
  rewrite (proj2 (Nat.ltb_lt 0 row)) by done.
  rewrite Hcell, Hraw. cbn [fst]. unfold rawItem. rewrite lookup_fmap.
  destruct (item !! field) as [av|]; cbn [fmap option_fmap option_map];
    [|split; [split; [by intros [? ?] | by intros (? & ? & ?)] | done]].
  destruct av as [s|s|b|l|m|ss|ns|bs|b|n|tag value]; cbn [attributeValueToInterface];
    try (split; [split; [by intros [? ?] | by intros (? & [= <-] & [[? ?]|[? ?]])]
                | done]).
  - destruct (strconv.ParseInt s); [|destruct (strconv.ParseFloat s)];
      (split; [split; [by intros [? ?] | by intros (? & [= <-] & [[? ?]|[? ?]])]
              | done]).
  - split; [split; [eauto 6 | eauto] |].
    intros title body [= <- <-]. split; [done|]. eexists. split; [done|].
    simpl. by destruct (json.collect _).
  - split; [split; [eauto 6 | eauto] |].
    intros title body [= <- <-]. split; [done|]. eexists. split; [done|].
    simpl. by destruct (json.collect _).
Qed.

End FieldView.

Lemma json_view_for_lists_and_maps_witness :
  let view := {| main.itemTable := [("id", "u1"); ("tags", "[a b]")];
                 main.iv_rawItem := aws.rawItem Example.hello |} in
  (is_Some (main.openJsonView Example.noFloat view 2)
   <-> exists av, Example.hello !! "tags" = Some av
                  /\ ((exists l, av = AttributeValueMemberL l)
                      \/ (exists m, av = AttributeValueMemberM m)))
  /\ (forall title body,
        main.openJsonView Example.noFloat view 2 = Some (title, body) ->
        title = "JSON View - " ++ "tags" ++ " (Space: page down, ESC: close)"
        /\ exists av,
             Example.hello !! "tags" = Some av
             /\ match json.encode Example.noFloat 0 (aws.attributeValueToInterface av) with
                | inr jsonBytes => body = jsonBytes
                | inl err => body = "Error formatting JSON: " ++ json.errorText err
                end).
Proof.
  apply (json_view_for_lists_and_maps Example.noFloat
           {| main.itemTable := [("id", "u1"); ("tags", "[a b]")];
              main.iv_rawItem := aws.rawItem Example.hello |}
           Example.hello 2 "tags" "[a b]").
  - lia.
  - reflexivity.
  - reflexivity.
Defined.

(** ** The action page *)
Section ActionPages.
Import aws main.
Variable client : Service.
Variable tableInfo : TableInfo.

(** X20.  The Query button reads back what the user typed.  On the query
    form of a table with a partition key, the button finds the
    partition-key value in the first field and, when the table has a sort
    key, the sort-key value in the second and the chosen operator in the
    drop-down; no index is out of range and no type assertion fails.  The
    operator only reaches the request when a sort-key value was typed:
    otherwise the key condition is the partition-key equality alone. *)
Theorem query_form_reads_back (pk sk cond : string) (choice : nat) :
  PartitionKey tableInfo <> "" ->
  conditions !! choice = Some cond ->
  let withSort := negb (String.eqb (SortKey tableInfo) "") in
  let act :=
    if withSort && negb (String.eqb sk "")
    then QueryAction pk (SortKey tableInfo) sk cond
    else QueryAction pk "" "" "" in
  readForm tableInfo (filledForm tableInfo pk sk (Z.of_nat choice))
  = Some (pk, if withSort then sk else "", if withSort then cond else "")
  /\ (forall pkValue skValue condition,
        readForm tableInfo (filledForm tableInfo pk sk (Z.of_nat choice))
        = Some (pkValue, skValue, condition) ->
        queryAction tableInfo pkValue skValue condition = act)
  /\ exists input,
       fst (fetchPage client tableInfo act None) = [CallQuery input]
       /\ qi_KeyConditionExpression input
          = (if withSort && negb (String.eqb sk "")
             then sortKeyExpression cond else "#pk = :pk")
       /\ qi_ExpressionAttributeValues input !! ":pk" = Some (AttributeValueMemberS pk)
       /\ qi_ExclusiveStartKey input = None.
Proof.
  intros Hpk Hcond. cbv zeta.
  assert (Hread : readForm tableInfo (filledForm tableInfo pk sk (Z.of_nat choice))
                  = Some (pk, if negb (String.eqb (SortKey tableInfo) "") then sk else "",
                          if negb (String.eqb (SortKey tableInfo) "") then cond else "")).
  { unfold readForm, filledForm, updateForm. cbn [Z.eqb formItems].
    destruct (String.eqb_spec (PartitionKey tableInfo) "") as [|_]; [done|].
    destruct (String.eqb_spec (SortKey tableInfo) "") as [Hsk|Hsk]; [done|].
    cbn. unfold currentOptionText.
    pose proof (lookup_lt_Some _ _ _ Hcond) as Hlt.
    rewrite (proj2 (Z.leb_le 0 (Z.of_nat choice))) by lia.
    rewrite (proj2 (Z.ltb_lt (Z.of_nat choice) _)) by lia.
    cbn [andb]. by rewrite Nat2Z.id, Hcond. }
  split_and!.
  - exact Hread.
  - intros pkValue skValue condition. rewrite Hread. intros [= <- <- <-].
    unfold queryAction.
    destruct (String.eqb_spec (SortKey tableInfo) "") as [Hsk|Hsk]; [done|].
    cbn [negb andb]. by destruct (String.eqb sk "").
  - unfold fetchPage.
    destruct (negb (String.eqb (SortKey tableInfo) "") && negb (String.eqb sk "")) eqn:Hsort.
    + eexists. split; [reflexivity|]. unfold buildQueryInput.
      cbn [qi_KeyConditionExpression qi_ExpressionAttributeValues qi_ExclusiveStartKey].
      apply andb_true_iff in Hsort as [-> ->]. cbn [andb option_map].
      split_and!; try done; by rewrite lookup_insert_ne, lookup_singleton_eq.
    + eexists. split; [reflexivity|]. unfold buildQueryInput.
      cbn [String.eqb negb andb qi_KeyConditionExpression qi_ExpressionAttributeValues
           qi_ExclusiveStartKey option_map].
      split_and!; try done; by rewrite lookup_singleton_eq.
Qed.


(** X22.  The arrow keys switch the tab and clear the form: Left and
    Right both go to the other tab and build its form anew, so pressing
    one of them twice comes back to the same tab with an empty form,
    whatever the form held before, and the Query button then reads empty
    values and the first operator. *)
Theorem arrow_keys_clear_the_form (page : ActionPage) (key : Key) :
  key = KeyLeft \/ key = KeyRight ->
  currentTab page = 0 \/ currentTab page = 1 ->
  let once := tabKey tableInfo key page in
  let twice := tabKey tableInfo key once in
  currentTab once = 1 - currentTab page
  /\ form once = updateForm tableInfo (currentTab once)
  /\ currentTab twice = currentTab page
  /\ form twice = updateForm tableInfo (currentTab page)
  /\ (PartitionKey tableInfo <> "" -> currentTab page = 0 ->
      readForm tableInfo (form twice)
      = Some ("", "", if String.eqb (SortKey tableInfo) "" then "" else "=")).
Proof.
  intros Hkey Htab. cbv zeta.
  assert (Hback : 1 - (1 - currentTab page) = currentTab page) by lia.
  destruct Hkey as [-> | ->]; cbn [tabKey currentTab form]; rewrite Hback;
    (split_and!; try done;
     intros Hpk ->; unfold readForm, updateForm; cbn [Z.eqb formItems];
     destruct (String.eqb_spec (PartitionKey tableInfo) "") as [|_]; [done|];
     by destruct (String.eqb (SortKey tableInfo) "")).
Qed.

End ActionPages.

Lemma query_form_reads_back_witness :
  let withSort := negb (String.eqb (aws.SortKey Example.events) "") in
  let act :=
    if withSort && negb (String.eqb "2024" "")
    then main.QueryAction "u1" (aws.SortKey Example.events) "2024" "begins_with"
    else main.QueryAction "u1" "" "" "" in
  main.readForm Example.events (filledForm Example.events "u1" "2024" (Z.of_nat 1))
  = Some ("u1", if withSort then "2024" else "", if withSort then "begins_with" else "")
  /\ (forall pkValue skValue condition,
        main.readForm Example.events (filledForm Example.events "u1" "2024" (Z.of_nat 1))
        = Some (pkValue, skValue, condition) ->
        main.queryAction Example.events pkValue skValue condition = act)
  /\ exists input,
       fst (main.fetchPage Example.feed Example.events act None) = [aws.CallQuery input]
       /\ aws.qi_KeyConditionExpression input
          = (if withSort && negb (String.eqb "2024" "")
             then aws.sortKeyExpression "begins_with" else "#pk = :pk")
       /\ aws.qi_ExpressionAttributeValues input !! ":pk"
          = Some (AttributeValueMemberS "u1")
       /\ aws.qi_ExclusiveStartKey input = None.
Proof.
  apply (query_form_reads_back Example.feed Example.events "u1" "2024" "begins_with" 1).
  - discriminate.
  - reflexivity.
Defined.

Lemma arrow_keys_clear_the_form_witness :
  let page := {| main.currentTab := 0;
                 main.form := filledForm Example.events "u1" "2024" 1 |} in
  let once := main.tabKey Example.events main.KeyRight page in
  let twice := main.tabKey Example.events main.KeyRight once in
  main.currentTab once = 1 - main.currentTab page
  /\ main.form once = main.updateForm Example.events (main.currentTab once)
  /\ main.currentTab twice = main.currentTab page
  /\ main.form twice = main.updateForm Example.events (main.currentTab page)
  /\ (aws.PartitionKey Example.events <> "" -> main.currentTab page = 0 ->
      main.readForm Example.events (main.form twice)
      = Some ("", "", if String.eqb (aws.SortKey Example.events) "" then "" else "=")).
Proof.
  apply (arrow_keys_clear_the_form Example.events
           {| main.currentTab := 0;
              main.form := filledForm Example.events "u1" "2024" 1 |}
           main.KeyRight).
  - by right.
  - by left.
Defined.

(** ** The record behind a row of the scan view *)
Section Records.
Import aws main.
Variable formatFloat : spec_float -> string.
Variable client : Service.
Variable tableInfo : TableInfo.

Local Abbreviation next := (main.next formatFloat client tableInfo ScanAction).
Local Abbreviation previous := (main.previous formatFloat tableInfo ScanAction).
Local Abbreviation fetch := (fetchPage client tableInfo ScanAction).
Local Abbreviation Inv := (PagingInv formatFloat client tableInfo ScanAction).







End Records.

